(** * ctr run: mount-flag parsing and the run lifecycle

    A shallow embedding of [cmd/ctr/commands/run/run.go]:

    - [parseMountFlag] and [withMounts], together with the two Go standard
      library routines they call ([strings.Split] with a one-byte separator
      and [encoding/csv]'s [Reader.Read] with its default settings);
    - the [Action] closure of the [run] command, written in a small monad
      that threads the log of calls made to the outside world and Go's
      stack of deferred calls.

    Go strings are byte sequences; they are modelled by [string]
    (a sequence of [ascii] bytes).

    What lies outside the file is kept abstract.  The client, the console
    and the task are reached through calls whose results a [World] decides
    from the calls made before; [console.Current] is taken to return
    normally; the receive from the status channel may block for ever; the
    goroutines that forward signals and console sizes appear only through
    the calls that start and stop them. *)

From Stdlib Require Import String Ascii List Bool Arith ZArith Lia Permutation.
Import ListNotations.
Local Open Scope string_scope.
Local Open Scope list_scope.

Set Implicit Arguments.

(* ===================================================================== *)
(** ** Go values *)
(* ===================================================================== *)

(** The two sentinel errors of [encoding/csv] that a reader with default
    settings can attach to a [ParseError].  Line and column numbers of
    [ParseError] are not modelled. *)
Inductive csvErr : Type :=
| ErrBareQuote   (* a bare quote in a non-quoted field *)
| ErrQuote.      (* an extraneous or missing quote in a quoted field *)

(** Go [error] values that the file manufactures or passes on. *)
Inductive error : Type :=
| ErrorString (msg : string)          (* errors.New / fmt.Errorf without verbs *)
| UnsupportedOption (key : string)    (* fmt.Errorf("mount option %q not supported", key) *)
| ParseError (e : csvErr)             (* *csv.ParseError *)
| EOF                                 (* io.EOF *)
| ExitError (msg : string) (code : Z). (* cli.NewExitError(msg, code) *)

(** [specs.Mount] of the OCI runtime spec. *)
Record Mount : Type := mkMount {
  Destination : string;
  Type_ : string;
  Source : string;
  Options : list string
}.

(** The zero value [specs.Mount{}]. *)
Definition emptyMount : Mount := mkMount "" "" "" [].

(* ===================================================================== *)
(** ** Byte-string primitives *)
(* ===================================================================== *)

Module Bytes.

Definition comma : ascii := ","%char.
(** The double quote, byte 34. *)
Definition quote : ascii := Ascii false true false false false true false false.
Definition LF : ascii := "010"%char.
Definition CR : ascii := "013"%char.

(** [bytes.IndexByte]: position of the first occurrence of [c]. *)
Fixpoint indexByte (c : ascii) (s : string) : option nat :=
  match s with
  | EmptyString => None
  | String a s' =>
      if Ascii.eqb a c then Some 0
      else match indexByte c s' with
           | Some i => Some (S i)
           | None => None
           end
  end.

(** [s[:n]] *)
Fixpoint take (n : nat) (s : string) : string :=
  match n, s with
  | S n', String a s' => String a (take n' s')
  | _, _ => EmptyString
  end.

(** [s[n:]] *)
Fixpoint drop (n : nat) (s : string) : string :=
  match n, s with
  | S n', String _ s' => drop n' s'
  | _, _ => s
  end.

(** Number of occurrences of the byte [c] in [s]. *)
Fixpoint countByte (c : ascii) (s : string) : nat :=
  match s with
  | EmptyString => 0
  | String a s' => (if Ascii.eqb a c then 1 else 0) + countByte c s'
  end.

(** The last byte of [s], if any. *)
Fixpoint lastByte (s : string) : option ascii :=
  match s with
  | EmptyString => None
  | String a EmptyString => Some a
  | String _ s' => lastByte s'
  end.

(** [s] without its last byte. *)
Fixpoint dropLast (s : string) : string :=
  match s with
  | EmptyString => EmptyString
  | String _ EmptyString => EmptyString
  | String a s' => String a (dropLast s')
  end.

Definition endsWith (c : ascii) (s : string) : bool :=
  match lastByte s with
  | Some a => Ascii.eqb a c
  | None => false
  end.

(** [strings.Join] *)
Fixpoint join (sep : string) (l : list string) : string :=
  match l with
  | [] => ""
  | [x] => x
  | x :: rest => (x ++ sep ++ join sep rest)%string
  end.

End Bytes.

(* ===================================================================== *)
(** ** strings.Split *)
(* ===================================================================== *)

(** [strings.Split(s, sep)] for a separator [sep] of one byte, which is what
    both call sites pass (an equals sign and a colon): [s] is cut at every occurrence
    of the separator, so the result has one more element than [s] has
    separators. *)
Fixpoint Split (s : string) (sep : ascii) : list string :=
  match s with
  | EmptyString => [""]
  | String a s' =>
      if Ascii.eqb a sep then "" :: Split s' sep
      else match Split s' sep with
           | piece :: pieces => String a piece :: pieces
           | [] => [String a ""]
           end
  end.

(* ===================================================================== *)
(** ** encoding/csv: reading one record *)
(* ===================================================================== *)

(** [csv.NewReader(strings.NewReader(m)).Read()] with the reader's default
    settings: comma as delimiter, no comment character, no lazy quotes, no
    trimming of leading space, any number of fields.  The reader compares
    the bytes of a line with the (one-byte) delimiter and quote. *)
Module CSV.
Import Bytes.

(** [lengthNL]: 1 when the line ends with a line feed, else 0. *)
Definition lengthNL (b : string) : nat :=
  if endsWith LF b then 1 else 0.

(** The slices that [ReadSlice] with a line feed as delimiter returns one
    after the other: every line with its line feed, and what follows the
    last line feed when that is not empty. *)
Fixpoint rawLines (s : string) : list string :=
  match s with
  | EmptyString => []
  | String a s' =>
      if Ascii.eqb a LF then String a "" :: rawLines s'
      else match s' with
           | EmptyString => [String a ""]
           | String _ _ =>
               match rawLines s' with
               | l :: ls => String a l :: ls
               | [] => [String a ""]
               end
           end
  end.

(** [Reader.readLine] applied to one such slice: a carriage return before
    the end of the input is dropped, and a carriage return before the
    line feed is dropped as well. *)
Definition readLine (raw : string) : string :=
  if endsWith LF raw then
    if endsWith CR (dropLast raw) then (dropLast (dropLast raw) ++ String LF "")%string
    else raw
  else if endsWith CR raw then dropLast raw
  else raw.

(** How the inner loop over a quoted field leaves. *)
Inductive quotedEnd : Type :=
| QComma (field line : string) (rest : list string) (* quote then comma: next field *)
| QEndOfLine (field : string)                       (* quote then end of line: last field *)
| QError (e : csvErr).

(** The inner loop of [readRecord] for a quoted field, entered after the
    opening quote.  [buf] is the part of the field copied so far, [line]
    what is left of the current line, [rest] the lines not read yet.
    [None] means that [fuel] ran out. *)
Fixpoint quotedField (fuel : nat) (buf line : string) (rest : list string)
  : option quotedEnd :=
  match fuel with
  | O => None
  | S fuel' =>
      match indexByte quote line with
      | Some i =>
          (* hit the next quote *)
          let buf := (buf ++ take i line)%string in
          let line := drop (S i) line in
          match line with
          | String c line' =>
              if Ascii.eqb c quote then
                quotedField fuel' (buf ++ String quote "")%string line' rest
              else if Ascii.eqb c comma then
                Some (QComma buf line' rest)
              else if Nat.eqb (String.length line) (lengthNL line) then
                Some (QEndOfLine buf)
              else Some (QError ErrQuote)
          | EmptyString => Some (QEndOfLine buf)
          end
      | None =>
          match line with
          | String _ _ =>
              (* hit the end of the line: copy it and read the next one *)
              match rest with
              | l :: rest' => quotedField fuel' (buf ++ line)%string l rest'
              | [] => quotedField fuel' (buf ++ line)%string "" []
              end
          | EmptyString =>
              (* abrupt end of the input *)
              Some (QError ErrQuote)
          end
      end
  end.

(** The field that starts [line] when it is not quoted: the bytes before
    the first comma, or the whole line without its line feed. *)
Definition plainField (line : string) : string :=
  match indexByte comma line with
  | Some i => take i line
  | None => take (String.length line - lengthNL line) line
  end.

(** The [parseField] loop of [readRecord]: [acc] holds the fields of the
    record that are complete.  The result is the record read and the
    error, as Go returns them; [None] means that [fuel] ran out. *)
Fixpoint parseField (fuel : nat) (line : string) (rest acc : list string)
  : option (list string * option error) :=
  match fuel with
  | O => None
  | S fuel' =>
      let quoted :=
        match line with
        | String c _ => Ascii.eqb c quote
        | EmptyString => false
        end in
      if quoted then
        (* quoted string field *)
        match quotedField fuel "" (drop 1 line) rest with
        | None => None
        | Some (QComma field line2 rest2) =>
            parseField fuel' line2 rest2 (acc ++ [field])
        | Some (QEndOfLine field) => Some (acc ++ [field], None)
        | Some (QError e) => Some (acc, Some (ParseError e))
        end
      else
        (* non-quoted string field *)
        let field := plainField line in
        match indexByte quote field with
        | Some _ => Some (acc, Some (ParseError ErrBareQuote))
        | None =>
            match indexByte comma line with
            | Some i => parseField fuel' (drop (S i) line) rest (acc ++ [field])
            | None => Some (acc ++ [field], None)
            end
        end
  end.

(** The head of [readRecord]: empty lines are skipped, and the end of the
    input before any record is [io.EOF]. *)
Fixpoint readRecord (fuel : nat) (lines : list string)
  : option (list string * option error) :=
  match lines with
  | [] => Some ([], Some EOF)
  | line :: rest =>
      if Nat.eqb (String.length line) (lengthNL line) then readRecord fuel rest
      else parseField fuel line rest []
  end.

(** Bytes and lines that are left to read. *)
Definition size (line : string) (rest : list string) : nat :=
  String.length line + list_sum (map (fun l => S (String.length l)) rest).

(** [Read] on a fresh reader over the string [m].  The fuel is the size
    of the input (see [readRecord_fuel] below: it never runs out). *)
Definition Read (m : string) : list string * option error :=
  let lines := map readLine (rawLines m) in
  match readRecord (S (size "" lines)) lines with
  | Some r => r
  | None => ([], Some EOF)
  end.

End CSV.

(* ===================================================================== *)
(** ** parseMountFlag and withMounts *)
(* ===================================================================== *)

Definition errExpectedKeyVal : error :=
  ErrorString "invalid mount specification: expected key=val".

(** The [switch key] statement of the loop body. *)
Definition switchKey (mount : Mount) (key val : string) : Mount * option error :=
  if String.eqb key "type" then
    (mkMount (Destination mount) val (Source mount) (Options mount), None)
  else if String.eqb key "source" || String.eqb key "src" then
    (mkMount (Destination mount) (Type_ mount) val (Options mount), None)
  else if String.eqb key "destination" || String.eqb key "dst" then
    (mkMount val (Type_ mount) (Source mount) (Options mount), None)
  else if String.eqb key "options" then
    (mkMount (Destination mount) (Type_ mount) (Source mount)
             (Split val ":"%char), None)
  else (mount, Some (UnsupportedOption key)).

(** The body of the loop over the fields in [parseMountFlag]. *)
Definition setField (mount : Mount) (field : string) : Mount * option error :=
  let v := Split field "="%char in
  if negb (Nat.eqb (List.length v) 2) then (mount, Some errExpectedKeyVal)
  else
    let key := nth 0 v "" in
    let val := nth 1 v "" in
    switchKey mount key val.

(** [for _, field := range fields { ... }] followed by [return mount, nil]. *)
Fixpoint rangeFields (mount : Mount) (fields : list string)
  : Mount * option error :=
  match fields with
  | [] => (mount, None)
  | field :: fields' =>
      match setField mount field with
      | (mount', None) => rangeFields mount' fields'
      | (mount', Some err) => (mount', Some err)
      end
  end.

(** [parseMountFlag] parses a mount string in the form
    [type=foo,source=/path,destination=/target,options=rbind:rw].
    Like the Go function it returns the mount and the error. *)
Definition parseMountFlag (m : string) : Mount * option error :=
  let mount := emptyMount in
  match CSV.Read m with
  | (_, Some err) => (mount, Some err)
  | (fields, None) => rangeFields mount fields
  end.

(** The closure of [withMounts] up to its call of [oci.WithMounts]: the
    mounts handed to it, or the first parse error. *)
Fixpoint withMounts (flags : list string) (mounts : list Mount)
  : list Mount * option error :=
  match flags with
  | [] => (mounts, None)
  | mount :: flags' =>
      match parseMountFlag mount with
      | (_, Some err) => (mounts, Some err)
      | (m, None) => withMounts flags' (mounts ++ [m])
      end
  end.


(* ===================================================================== *)
(** ** The run command: the world it talks to *)
(* ===================================================================== *)

(** [containerd.ExitStatus]; its [Result] method returns the code (a
    [uint32]), the exit time and the error stored in it. *)
Record ExitStatus : Type := mkStatus {
  code : Z;
  err : option error
}.

(** The calls [Action] makes outside its own frame, each with what came
    back from it.  The client, the container, the task and the console are
    the only ones of their kind in one run, so the handles are left out. *)
Inductive event : Type :=
| NewClient (e : option error)         (* commands.NewClient(context) *)
| Cancel                               (* cancel() *)
| NewContainer (e : option error)      (* NewContainer(ctx, client, context) *)
| ContainerDelete (e : option error)   (* container.Delete(ctx, WithSnapshotCleanup) *)
| ConsoleCurrent                       (* console.Current() *)
| ConsoleReset (e : option error)      (* con.Reset() *)
| ConsoleSetRaw (e : option error)     (* con.SetRaw() *)
| NewTask (checkpoint : string) (con nullIO : bool) (logURI fifoDir : string)
          (e : option error)           (* tasks.NewTask(...) *)
| TaskWait (e : option error)          (* task.Wait(ctx) *)
| WritePidFile (path : string) (pid : Z) (e : option error)
| TaskStart (e : option error)         (* task.Start(ctx) *)
| HandleConsoleResize (e : option error)
| LogError (e : error)                 (* logrus.WithError(err).Error(...) *)
| ForwardAllSignals                    (* commands.ForwardAllSignals(ctx, task) *)
| StopCatch                            (* commands.StopCatch(sigc) *)
| ReceiveStatus (s : ExitStatus)       (* <-statusC *)
| TaskDelete (e : option error).       (* task.Delete(ctx) *)

(** The world answers a call from what has happened so far: the error of
    the next fallible call, the pid the task reports, and the exit status
    that the channel delivers ([None]: it never delivers one). *)
Record World : Type := mkWorld {
  errOf : list event -> option error;
  pidOf : list event -> Z;
  statusOf : list event -> option ExitStatus
}.

(** What [Action] reads from its [*cli.Context]. *)
Record Context : Type := mkContext {
  Args : list string;        (* context.Args() *)
  tty : bool;                (* context.Bool("tty") *)
  detach : bool;             (* context.Bool("detach") *)
  config : bool;             (* context.IsSet("config") *)
  rm : bool;                 (* context.Bool("rm") *)
  nullIO : bool;             (* context.Bool("null-io") *)
  logURI : string;           (* context.String("log-uri") *)
  fifoDir : string;          (* context.String("fifo-dir") *)
  checkpoint : string;       (* context.String("checkpoint") *)
  pidFileSet : bool;         (* context.IsSet("pid-file") *)
  pidFile : string           (* context.String("pid-file") *)
}.

(** [Args.Get(n)]: the empty string when there is no such argument. *)
Definition Get (args : list string) (n : nat) : string := nth n args "".

(** [int(x)] for a [uint32] [x], with Go's [int] of 64 bits. *)
Definition int (x : Z) : Z :=
  ((x + 2 ^ 63) mod 2 ^ 64 - 2 ^ 63)%Z.

(* ===================================================================== *)
(** ** A monad for the body of a Go function *)
(* ===================================================================== *)

(** The calls that [Action] defers. *)
Inductive deferred : Type :=
| DeferCancel            (* defer cancel() *)
| DeferContainerDelete   (* defer container.Delete(ctx, containerd.WithSnapshotCleanup) *)
| DeferConsoleReset      (* defer con.Reset() *)
| DeferTaskDelete        (* defer task.Delete(ctx) *)
| DeferStopCatch.        (* defer commands.StopCatch(sigc) *)

(** The state of one activation: the calls made so far, oldest first, and
    the stack of deferred calls, latest first. *)
Record frame : Type := mkFrame {
  log : list event;
  defers : list deferred
}.

(** A statement goes on to the next one, returns from the function, or
    blocks for ever. *)
Inductive flow (A : Type) : Type :=
| Next (a : A)
| Return (e : option error)
| Blocked.
Arguments Return {A} e.
Arguments Blocked {A}.

Definition body (A : Type) : Type := World -> frame -> flow A * frame.

Definition ret {A} (a : A) : body A := fun _ f => (Next a, f).

Definition bind {A B} (m : body A) (k : A -> body B) : body B :=
  fun w f =>
    match m w f with
    | (Next a, f') => k a w f'
    | (Return e, f') => (Return e, f')
    | (Blocked, f') => (Blocked, f')
    end.

Declare Scope body_scope.
Delimit Scope body_scope with body.
Notation "x <- m ;; k" := (bind m (fun x => k))
  (at level 61, m at next level, right associativity) : body_scope.
Notation "m ;; k" := (bind m (fun _ => k))
  (at level 61, right associativity) : body_scope.
Local Open Scope body_scope.

(** [return e] *)
Definition return_ {A} (e : option error) : body A := fun _ f => (Return e, f).

(** [defer d] *)
Definition defer (d : deferred) : body unit :=
  fun _ f => (Next tt, mkFrame (log f) (d :: defers f)).

(** A call that yields an error value. *)
Definition call (ev : option error -> event) : body (option error) :=
  fun w f =>
    let e := errOf w (log f) in
    (Next e, mkFrame (log f ++ [ev e]) (defers f)).

(** A call that yields nothing this function looks at. *)
Definition emit (ev : event) : body unit :=
  fun _ f => (Next tt, mkFrame (log f ++ [ev]) (defers f)).

(** [task.Pid()]: the pid recorded in the task handle. *)
Definition taskPid : body Z :=
  fun w f => (Next (pidOf w (log f)), f).

(** [<-statusC] *)
Definition receive : body ExitStatus :=
  fun w f =>
    match statusOf w (log f) with
    | Some s => (Next s, mkFrame (log f ++ [ReceiveStatus s]) (defers f))
    | None => (Blocked, f)
    end.

(** [if err != nil { return err }] *)
Definition check (e : option error) : body unit :=
  match e with
  | Some _ => return_ e
  | None => ret tt
  end.

(** [if b { ... }] *)
Definition when (b : bool) (m : body unit) : body unit :=
  if b then m else ret tt.

(* ===================================================================== *)
(** ** Command.Action *)
(* ===================================================================== *)

Definition Action (context : Context) : body Empty_set :=
  let tty := tty context in
  let detach := detach context in
  let config := config context in
  id <- (if config then
           if Nat.ltb 1 (List.length (Args context)) then
             return_ (Some (ErrorString
               "with spec config file, only container id should be provided"))
           else ret (Get (Args context) 0)
         else
           if String.eqb (Get (Args context) 0) "" then
             return_ (Some (ErrorString "image ref must be provided"))
           else ret (Get (Args context) 1)) ;;
  when (String.eqb id "")
       (return_ (Some (ErrorString "container id must be provided"))) ;;
  e <- call NewClient ;;
  check e ;;
  defer DeferCancel ;;
  e <- call NewContainer ;;
  check e ;;
  when (rm context && negb detach) (defer DeferContainerDelete) ;;
  when tty (emit ConsoleCurrent ;;
            defer DeferConsoleReset ;;
            e <- call ConsoleSetRaw ;;
            check e) ;;
  e <- call (NewTask (checkpoint context) tty (nullIO context)
                     (logURI context) (fifoDir context)) ;;
  check e ;;
  when (negb detach) (defer DeferTaskDelete ;;
                      e <- call TaskWait ;;
                      check e) ;;
  when (pidFileSet context) (pid <- taskPid ;;
                             e <- call (WritePidFile (pidFile context) (int pid)) ;;
                             check e) ;;
  e <- call TaskStart ;;
  check e ;;
  when detach (return_ None) ;;
  (if tty then
     e <- call HandleConsoleResize ;;
     match e with
     | Some e' => emit (LogError e')
     | None => ret tt
     end
   else
     emit ForwardAllSignals ;;
     defer DeferStopCatch) ;;
  status <- receive ;;
  check (err status) ;;
  e <- call TaskDelete ;;
  check e ;;
  if negb (Z.eqb (code status) 0) then
    return_ (Some (ExitError "" (int (code status))))
  else return_ None.

(** A deferred call, made when the function returns; what it yields is
    dropped. *)
Definition runDeferred (w : World) (d : deferred) (l : list event) : list event :=
  match d with
  | DeferCancel => l ++ [Cancel]
  | DeferContainerDelete => l ++ [ContainerDelete (errOf w l)]
  | DeferConsoleReset => l ++ [ConsoleReset (errOf w l)]
  | DeferTaskDelete => l ++ [TaskDelete (errOf w l)]
  | DeferStopCatch => l ++ [StopCatch]
  end.

(** The deferred calls run latest first. *)
Fixpoint runDefers (w : World) (ds : list deferred) (l : list event) : list event :=
  match ds with
  | [] => l
  | d :: ds' => runDefers w ds' (runDeferred w d l)
  end.

(** How one invocation of the command ends. *)
Inductive outcome : Type :=
| Returned (e : option error)   (* the error that Action returns, nil for success *)
| Hangs.                        (* blocked on the status channel *)

(** One invocation of [Action] in the world [w]: its outcome and all the
    calls made, the deferred ones included. *)
Definition Run (w : World) (context : Context) : outcome * list event :=
  match Action context w (mkFrame [] []) with
  | (Return e, f) => (Returned e, runDefers w (defers f) (log f))
  | (Blocked, f) => (Hangs, log f)
  | (Next x, _) => match x with end
  end.

(* ===================================================================== *)
(** ** Reading a log *)
(* ===================================================================== *)

Definition isNewContainer (ev : event) : bool :=
  match ev with NewContainer _ => true | _ => false end.
Definition isContainerDelete (ev : event) : bool :=
  match ev with ContainerDelete _ => true | _ => false end.
Definition isConsoleCurrent (ev : event) : bool :=
  match ev with ConsoleCurrent => true | _ => false end.
Definition isConsoleReset (ev : event) : bool :=
  match ev with ConsoleReset _ => true | _ => false end.
Definition isConsoleSetRaw (ev : event) : bool :=
  match ev with ConsoleSetRaw _ => true | _ => false end.
Definition isNewTask (ev : event) : bool :=
  match ev with NewTask _ _ _ _ _ _ => true | _ => false end.
Definition isTaskWait (ev : event) : bool :=
  match ev with TaskWait _ => true | _ => false end.
Definition isTaskStart (ev : event) : bool :=
  match ev with TaskStart _ => true | _ => false end.
Definition isHandleConsoleResize (ev : event) : bool :=
  match ev with HandleConsoleResize _ => true | _ => false end.
Definition isForwardAllSignals (ev : event) : bool :=
  match ev with ForwardAllSignals => true | _ => false end.
Definition isReceiveStatus (ev : event) : bool :=
  match ev with ReceiveStatus _ => true | _ => false end.
Definition isTaskDelete (ev : event) : bool :=
  match ev with TaskDelete _ => true | _ => false end.

(** Calls that touch only the local console or the local context. *)
Definition isLocalCleanup (ev : event) : bool :=
  match ev with ConsoleReset _ | Cancel => true | _ => false end.

(** How many events of the log satisfy [p]. *)
Definition count (p : event -> bool) (l : list event) : nat :=
  List.length (filter p l).

(** The events before the first one that satisfies [p]. *)
Fixpoint before (p : event -> bool) (l : list event) : list event :=
  match l with
  | [] => []
  | ev :: l' => if p ev then [] else ev :: before p l'
  end.

(** The events after the first one that satisfies [p]. *)
Fixpoint after (p : event -> bool) (l : list event) : list event :=
  match l with
  | [] => []
  | ev :: l' => if p ev then l' else after p l'
  end.

(** [b] is the event right after an occurrence of [a]. *)
Fixpoint follows (a b : event) (l : list event) : Prop :=
  match l with
  | x :: (y :: _) as l' => (x = a /\ y = b) \/ follows a b l'
  | _ => False
  end.


(* ===================================================================== *)
(** ** Vocabulary for statements about the mount parser *)
(* ===================================================================== *)

(** The text before and after the equals sign of a [key=val] token. *)
Definition keyOf (field : string) : string := nth 0 (Split field "="%char) "".
Definition valOf (field : string) : string := nth 1 (Split field "="%char) "".

(** The keys that the [switch] of [parseMountFlag] has a case for. *)
Definition typeKeys : list string := ["type"].
Definition sourceKeys : list string := ["source"; "src"].
Definition destinationKeys : list string := ["destination"; "dst"].
Definition optionsKeys : list string := ["options"].

Definition hasKey (keys : list string) (field : string) : bool :=
  existsb (String.eqb (keyOf field)) keys.

Definition recognized (key : string) : bool :=
  existsb (String.eqb key)
          (typeKeys ++ sourceKeys ++ destinationKeys ++ optionsKeys).

(** The token holds exactly one equals sign. *)
Definition keyVal (field : string) : bool :=
  Nat.eqb (Bytes.countByte "="%char field) 1.

(** The tokens that the loop of [parseMountFlag] takes without an error. *)
Definition accepted (field : string) : bool :=
  keyVal field && recognized (keyOf field).

(** The value of the last token of [fields] whose key is one of [keys]. *)
Fixpoint lastVal (keys : list string) (fields : list string) : option string :=
  match fields with
  | [] => None
  | field :: fields' =>
      match lastVal keys fields' with
      | Some v => Some v
      | None => if hasKey keys field then Some (valOf field) else None
      end
  end.

Definition orElse {A} (o : option A) (d : A) : A :=
  match o with
  | Some a => a
  | None => d
  end.

(** The mount in which every member holds what the last token naming it
    says, and what [mount] holds when no token names it. *)
Definition overwrite (mount : Mount) (fields : list string) : Mount :=
  mkMount (orElse (lastVal destinationKeys fields) (Destination mount))
          (orElse (lastVal typeKeys fields) (Type_ mount))
          (orElse (lastVal sourceKeys fields) (Source mount))
          (match lastVal optionsKeys fields with
           | Some v => Split v ":"%char
           | None => Options mount
           end).

(** [s] holds none of the bytes [bad]. *)
Definition noneOf (bad : list ascii) (s : string) : bool :=
  forallb (fun c => Nat.eqb (Bytes.countByte c s) 0) bad.

(** The bytes the csv reader gives a meaning to. *)
Definition csvDelims : list ascii :=
  [Bytes.comma; Bytes.quote; Bytes.LF; Bytes.CR].

(** The bytes that a value of a mount string written without quoting
    cannot hold, and those that one option cannot hold. *)
Definition valueDelims : list ascii := "="%char :: csvDelims.
Definition optionDelims : list ascii := ":"%char :: valueDelims.

(** A field that the csv reader hands on as it stands. *)
Definition plain (f : string) : Prop := noneOf csvDelims f = true.

(** A world in which every call succeeds, and one in which the call right
    after an event satisfying [p] fails with [e]. *)
Definition allSucceed (l : list event) : option error := None.

Definition failAfter (p : event -> bool) (e : error) (l : list event)
  : option error :=
  match rev l with
  | ev :: _ => if p ev then Some e else None
  | [] => None
  end.

(** The world with these errors in which the task has pid 4242 and exits
    with status [s]. *)
Definition worldOf (fails : list event -> option error) (s : ExitStatus) : World :=
  mkWorld fails (fun _ => 4242%Z) (fun _ => Some s).

(** [ctr run --rm img c1], [ctr run --rm --tty img c1] and
    [ctr run --detach --tty img c1]. *)
Definition runRm : Context :=
  mkContext ["img"; "c1"] false false false true false "" "" "" false "".
Definition runRmTty : Context :=
  mkContext ["img"; "c1"] true false false true false "" "" "" false "".
Definition runDetachTty : Context :=
  mkContext ["img"; "c1"] true true false false false "" "" "" false "".

(* ===================================================================== *)
(** ** More vocabulary for logs *)
(* ===================================================================== *)

Definition isNewClient (ev : event) : bool :=
  match ev with NewClient _ => true | _ => false end.
Definition isCancel (ev : event) : bool :=
  match ev with Cancel => true | _ => false end.
Definition isStopCatch (ev : event) : bool :=
  match ev with StopCatch => true | _ => false end.
Definition isWritePidFile (ev : event) : bool :=
  match ev with WritePidFile _ _ _ => true | _ => false end.


(** The three messages of the checks on the arguments. *)
Definition errOnlyContainerID : error :=
  ErrorString "with spec config file, only container id should be provided".
Definition errImageRef : error := ErrorString "image ref must be provided".
Definition errContainerID : error := ErrorString "container id must be provided".

(* ===================================================================== *)
(** ** More vocabulary for mount strings *)
(* ===================================================================== *)

(** The mount string parses without an error. *)
Definition parses (m : string) : bool :=
  match snd (parseMountFlag m) with
  | None => true
  | Some _ => false
  end.

(** The error of the loop of [parseMountFlag] for a token that it does not
    take. *)
Definition errorOf (tok : string) : error :=
  if keyVal tok then UnsupportedOption (keyOf tok) else errExpectedKeyVal.

(** The short and the long form of the keys that have two forms. *)
Definition aliases : list (string * string) :=
  [("src", "source"); ("dst", "destination")].

(** A field as it is written into a csv line: as it stands, or between
    double quotes. *)
Definition inQuotes (f : string) : string :=
  String Bytes.quote (f ++ String Bytes.quote "").

Definition written (f : bool * string) : string :=
  if fst f then inQuotes (snd f) else snd f.

(** What may stand between double quotes without a further mark: anything
    but a double quote and the bytes of a line end. *)
Definition quotable (f : string) : Prop :=
  noneOf [Bytes.quote; Bytes.LF; Bytes.CR] f = true.

Definition writable (f : bool * string) : Prop :=
  if fst f then quotable (snd f) else plain (snd f).

(** The line end that may follow the fields of a line. *)
Definition lineEnd (tail : string) : Prop :=
  tail = "" \/ tail = String Bytes.LF "".

(** The string holds line feeds and nothing else. *)
Definition onlyLineFeeds (s : string) : bool :=
  Nat.eqb (Bytes.countByte Bytes.LF s) (String.length s).

(** [ctr run --config spec.json c1 extra], [ctr run --pid-file /run/c1.pid
    img c1], and the world in which the task never exits. *)
Definition runConfigTwoArgs : Context :=
  mkContext ["c1"; "extra"] false false true false false "" "" "" false "".
(* ===================================================================== *)
(** ** Facts about the byte-string primitives *)
(* ===================================================================== *)

Module BytesFacts.
Import Bytes.

Lemma indexByte_lt c s i : indexByte c s = Some i -> i < String.length s.
Proof.
  revert i; induction s as [|a s IH]; simpl; intros i H; [discriminate|].
  destruct (Ascii.eqb a c).
  - inversion H; lia.
  - destruct (indexByte c s) as [j|]; [|discriminate].
    inversion H; subst. specialize (IH j eq_refl). lia.
Qed.

Lemma length_drop n s : String.length (drop n s) = String.length s - n.
Proof.
  revert s; induction n as [|n IH]; intros [|a s]; simpl; auto.
Qed.

Lemma indexByte_none_count c s : indexByte c s = None <-> countByte c s = 0.
Proof.
  induction s as [|a s IH]; simpl; [tauto|].
  destruct (Ascii.eqb a c); simpl.
  - split; discriminate.
  - destruct (indexByte c s); simpl in *; intuition discriminate.
Qed.

Lemma countByte_app c s t :
  countByte c (s ++ t) = countByte c s + countByte c t.
Proof.
  induction s as [|a s IH]; simpl; [reflexivity|]. rewrite IH. lia.
Qed.

(** The first occurrence of [c] in [s ++ c :: t] is at the end of [s]
    when [s] does not hold [c]. *)
Lemma indexByte_app c s t :
  countByte c s = 0 ->
  indexByte c (s ++ String c t) = Some (String.length s).
Proof.
  induction s as [|a s IH]; simpl; intros H.
  - rewrite Ascii.eqb_refl. reflexivity.
  - destruct (Ascii.eqb a c); [discriminate|].
    rewrite IH by exact H. reflexivity.
Qed.

Lemma length_app s t :
  String.length (s ++ t) = String.length s + String.length t.
Proof. induction s as [|a s IH]; simpl; [|rewrite IH]; reflexivity. Qed.

Lemma append_assoc s t u : ((s ++ t) ++ u = s ++ (t ++ u))%string.
Proof. induction s as [|a s IH]; simpl; [|rewrite IH]; reflexivity. Qed.

Lemma take_app s t : take (String.length s) (s ++ t) = s.
Proof. induction s as [|a s IH]; simpl; [destruct t|rewrite IH]; reflexivity. Qed.

Lemma take_all s : take (String.length s) s = s.
Proof. induction s as [|a s IH]; simpl; [|rewrite IH]; reflexivity. Qed.

Lemma drop_app s t : drop (String.length s) (s ++ t) = t.
Proof. induction s as [|a s IH]; simpl; [destruct t|]; auto. Qed.

Lemma lastByte_count c s : countByte c s = 0 -> endsWith c s = false.
Proof.
  unfold endsWith. induction s as [|a s IH]; simpl; [reflexivity|].
  destruct (Ascii.eqb a c) eqn:E; [discriminate|]. simpl. intros H.
  destruct s as [|b s]; [exact E|]. apply IH, H.
Qed.

End BytesFacts.

(* ===================================================================== *)
(** ** The csv reader never runs out of fuel *)
(* ===================================================================== *)

Module CSVFacts.
Import Bytes BytesFacts CSV.

Lemma quotedField_fuel fuel : forall buf line rest,
  size line rest < fuel ->
  exists r, quotedField fuel buf line rest = Some r /\
    forall f l r', r = QComma f l r' -> size l r' < size line rest.
Proof.
  induction fuel as [|fuel IH]; intros buf line rest Hlt; [lia|].
  cbn [quotedField]. destruct (indexByte quote line) as [i|] eqn:Hi.
  - apply indexByte_lt in Hi.
    assert (Hd : String.length (drop (S i) line) = String.length line - S i)
      by apply length_drop.
    destruct (drop (S i) line) as [|c line'] eqn:Hdrop.
    + eexists; split; [reflexivity|]. intros; discriminate.
    + simpl in Hd. destruct (Ascii.eqb c quote).
      * destruct (IH ((buf ++ take i line) ++ String quote "")%string line' rest)
          as (r & Hr & Hsz).
        { unfold size in *. lia. }
        exists r. split; [exact Hr|].
        intros f l r' E. specialize (Hsz f l r' E). unfold size in *. lia.
      * destruct (Ascii.eqb c comma).
        { eexists; split; [reflexivity|]. intros f l r' E.
          inversion E; subst. unfold size. lia. }
        destruct (Nat.eqb _ _); eexists; (split; [reflexivity|]);
          intros; discriminate.
  - destruct line as [|a line].
    + eexists; split; [reflexivity|]. intros; discriminate.
    + destruct rest as [|l rest'].
      * destruct (IH (buf ++ String a line)%string "" []) as (r & Hr & Hsz).
        { unfold size in *. simpl in *. lia. }
        exists r; split; [exact Hr|].
        intros f l r' E. specialize (Hsz f l r' E).
        unfold size in *. simpl in *. lia.
      * destruct (IH (buf ++ String a line)%string l rest') as (r & Hr & Hsz).
        { unfold size in *. simpl in *. lia. }
        exists r; split; [exact Hr|].
        intros f l0 r' E. specialize (Hsz f l0 r' E).
        unfold size in *. simpl in *. lia.
Qed.

Lemma parseField_fuel fuel : forall line rest acc,
  size line rest < fuel -> parseField fuel line rest acc <> None.
Proof.
  induction fuel as [|fuel IH]; intros line rest acc Hlt; [lia|].
  cbn [parseField].
  destruct (match line with String c _ => Ascii.eqb c quote | _ => false end)
    eqn:Hq.
  - destruct line as [|c line]; [discriminate|].
    destruct (quotedField_fuel "" (drop 1 (String c line)) rest (fuel := S fuel))
      as (r & Hr & Hsz).
    { unfold size in *. simpl in *. lia. }
    rewrite Hr. destruct r as [f l r'| |]; try discriminate.
    apply IH. specialize (Hsz f l r' eq_refl).
    unfold size in *. simpl in *. lia.
  - destruct (indexByte quote (plainField line)); [discriminate|].
    destruct (indexByte comma line) as [i|] eqn:Hi; [|discriminate].
    apply IH. apply indexByte_lt in Hi.
    unfold size in *. rewrite length_drop. lia.
Qed.

Lemma readRecord_fuel fuel lines :
  size "" lines < fuel -> readRecord fuel lines <> None.
Proof.
  induction lines as [|line rest IH]; simpl; intros Hlt; [discriminate|].
  destruct (Nat.eqb _ _).
  - apply IH. unfold size in *. simpl in *. lia.
  - apply parseField_fuel. unfold size in *. simpl in *. lia.
Qed.

(** [Read] is the result of [readRecord], not the default of its
    definition. *)
Lemma Read_readRecord m :
  readRecord (S (size "" (map readLine (rawLines m))))
             (map readLine (rawLines m)) = Some (Read m).
Proof.
  unfold Read.
  destruct (readRecord _ _) eqn:E; [reflexivity|].
  exfalso. revert E. apply readRecord_fuel. lia.
Qed.

End CSVFacts.

Example parse_doc_example :
  parseMountFlag "type=foo,source=/path,destination=/target,options=rbind:rw"
  = (mkMount "/target" "foo" "/path" ["rbind"; "rw"], None).
Proof. vm_compute. reflexivity. Qed.


(* ===================================================================== *)
(** ** strings.Split *)
(* ===================================================================== *)

Module SplitFacts.
Import Bytes BytesFacts.

Lemma Split_length s c : List.length (Split s c) = S (countByte c s).
Proof.
  induction s as [|a s IH]; simpl; [reflexivity|].
  destruct (Ascii.eqb a c); simpl; [now rewrite IH|].
  destruct (Split s c); simpl in *; congruence.
Qed.

Lemma Split_none s c : countByte c s = 0 -> Split s c = [s].
Proof.
  induction s as [|a s IH]; simpl; [reflexivity|].
  destruct (Ascii.eqb a c); simpl; [discriminate|].
  intros H. now rewrite (IH H).
Qed.

Lemma Split_keyval k v c :
  countByte c k = 0 -> countByte c v = 0 ->
  Split (k ++ String c v) c = [k; v].
Proof.
  intros Hk Hv. induction k as [|a k IH]; simpl in *.
  - rewrite Ascii.eqb_refl. now rewrite (Split_none _ _ Hv).
  - destruct (Ascii.eqb a c); [discriminate|]. now rewrite (IH Hk).
Qed.

Lemma noneOf_count bad s c :
  noneOf bad s = true -> In c bad -> countByte c s = 0.
Proof.
  unfold noneOf. rewrite forallb_forall. intros H Hin.
  apply Nat.eqb_eq, H, Hin.
Qed.

Lemma noneOf_app bad s t :
  noneOf bad s = true -> noneOf bad t = true -> noneOf bad (s ++ t) = true.
Proof.
  unfold noneOf. rewrite !forallb_forall. intros Hs Ht c Hc.
  rewrite countByte_app.
  specialize (Hs c Hc). specialize (Ht c Hc).
  apply Nat.eqb_eq in Hs, Ht. rewrite Hs, Ht. reflexivity.
Qed.

Lemma noneOf_incl bad bad' s :
  incl bad' bad -> noneOf bad s = true -> noneOf bad' s = true.
Proof.
  unfold noneOf. rewrite !forallb_forall. intros Hi H c Hc. apply H, Hi, Hc.
Qed.

End SplitFacts.

(* ===================================================================== *)
(** ** The csv reader on a line without quotes *)
(* ===================================================================== *)

Module CSVPlain.
Import Bytes BytesFacts SplitFacts CSV.

Lemma plain_count f c : plain f -> In c csvDelims -> countByte c f = 0.
Proof. intros H. apply noneOf_count, H. Qed.

Lemma join_cons f g l :
  join "," (f :: g :: l) = (f ++ String comma (join "," (g :: l)))%string.
Proof. reflexivity. Qed.

Lemma drop_past s c t : drop (S (String.length s)) (s ++ String c t) = t.
Proof. induction s as [|a s IH]; simpl; [reflexivity|exact IH]. Qed.

Lemma head_not_quote f t :
  countByte quote f = 0 ->
  match (f ++ String comma t)%string with
  | String c _ => Ascii.eqb c quote
  | EmptyString => false
  end = false.
Proof.
  destruct f as [|a f]; simpl; [reflexivity|].
  destruct (Ascii.eqb a quote); [discriminate|reflexivity].
Qed.

Lemma head_not_quote_last f :
  countByte quote f = 0 ->
  match f with
  | String c _ => Ascii.eqb c quote
  | EmptyString => false
  end = false.
Proof.
  destruct f as [|a f]; simpl; [reflexivity|].
  destruct (Ascii.eqb a quote); [discriminate|reflexivity].
Qed.

Lemma lengthNL_plain f : countByte LF f = 0 -> lengthNL f = 0.
Proof. intros H. unfold lengthNL. now rewrite lastByte_count. Qed.

(** A line of plain fields joined by commas is read back field by field. *)
Lemma parseField_plain l : forall fuel rest acc,
  l <> [] -> Forall plain l -> List.length l <= fuel ->
  parseField fuel (join "," l) rest acc = Some (acc ++ l, None).
Proof.
  induction l as [|f l IH]; intros fuel rest acc Hne Hall Hfuel; [congruence|].
  inversion Hall as [|? ? Hf Hl]; subst.
  assert (Hq : countByte quote f = 0) by (apply plain_count; simpl; auto).
  assert (Hc : countByte comma f = 0) by (apply plain_count; simpl; auto).
  assert (Hn : countByte LF f = 0) by (apply plain_count; simpl; auto).
  destruct fuel as [|fuel]; [simpl in Hfuel; lia|].
  destruct l as [|g l].
  - cbn [parseField join]. rewrite head_not_quote_last by exact Hq.
    unfold plainField.
    rewrite (proj2 (indexByte_none_count comma f) Hc).
    rewrite lengthNL_plain by exact Hn. rewrite Nat.sub_0_r, take_all.
    rewrite (proj2 (indexByte_none_count quote f) Hq). reflexivity.
  - rewrite join_cons. cbn [parseField].
    rewrite head_not_quote by exact Hq.
    unfold plainField. rewrite indexByte_app by exact Hc.
    rewrite take_app, (proj2 (indexByte_none_count quote f) Hq), drop_past.
    rewrite IH; [|discriminate|exact Hl|simpl in *; lia].
    rewrite <- app_assoc. reflexivity.
Qed.

Lemma countByte_join c l :
  Forall (fun f => countByte c f = 0) l -> c <> comma ->
  countByte c (join "," l) = 0.
Proof.
  intros Hall Hc. induction Hall as [|f l Hf Hl IH]; [reflexivity|].
  destruct l as [|g l]; [exact Hf|].
  rewrite join_cons, countByte_app. cbn [countByte].
  destruct (Ascii.eqb comma c) eqn:E.
  - apply Ascii.eqb_eq in E. congruence.
  - rewrite Hf, IH. reflexivity.
Qed.

Lemma rawLines_one s :
  s <> "" -> countByte LF s = 0 -> rawLines s = [s].
Proof.
  induction s as [|a s IH]; intros Hne Hn; [congruence|].
  cbn [rawLines countByte] in *.
  destruct (Ascii.eqb a LF); [discriminate|].
  destruct s as [|b s]; [reflexivity|].
  rewrite IH; [reflexivity|discriminate|exact Hn].
Qed.

Lemma length_join l : List.length l <= S (String.length (join "," l)).
Proof.
  induction l as [|f l IH]; [simpl; lia|].
  destruct l as [|g l]; [simpl; lia|].
  rewrite join_cons. rewrite length_app. simpl in *. lia.
Qed.

(** [Read] on a non-empty line of plain fields joined by commas yields
    these fields. *)
Lemma Read_plain l :
  Forall plain l -> join "," l <> "" -> Read (join "," l) = (l, None).
Proof.
  intros Hall Hne.
  assert (Hl : l <> []) by (intros ->; apply Hne; reflexivity).
  assert (Hcount : forall c, In c csvDelims -> c <> comma ->
                             countByte c (join "," l) = 0).
  { intros c Hin Hc. apply countByte_join; [|exact Hc].
    eapply Forall_impl; [|exact Hall]. intros f Hf. now apply plain_count. }
  assert (HLF : countByte LF (join "," l) = 0)
    by (apply Hcount; [simpl; auto|discriminate]).
  assert (HCR : countByte CR (join "," l) = 0)
    by (apply Hcount; [simpl; auto|discriminate]).
  unfold Read. rewrite rawLines_one by assumption.
  cbn [map]. unfold readLine.
  rewrite (lastByte_count _ _ HLF), (lastByte_count _ _ HCR).
  cbn [readRecord]. rewrite lengthNL_plain by exact HLF.
  destruct (join "," l) as [|a s] eqn:E; [congruence|].
  cbn [String.length Nat.eqb]. rewrite <- E.
  rewrite parseField_plain; [reflexivity|exact Hl|exact Hall|].
  pose proof (length_join l). unfold size. simpl. lia.
Qed.

End CSVPlain.

(* ===================================================================== *)
(** ** The loop of parseMountFlag *)
(* ===================================================================== *)

Module MountFacts.
Import Bytes BytesFacts SplitFacts.

Lemma setField_not_keyval mount field :
  countByte "=" field <> 1 ->
  setField mount field = (mount, Some errExpectedKeyVal).
Proof.
  intros H. unfold setField. rewrite Split_length.
  destruct (Nat.eqb_spec (S (countByte "=" field)) 2) as [E|E]; [lia|].
  reflexivity.
Qed.

Lemma setField_keyval mount field :
  countByte "=" field = 1 ->
  setField mount field = switchKey mount (keyOf field) (valOf field).
Proof.
  intros H. unfold setField. rewrite Split_length, H. reflexivity.
Qed.

Lemma keyOf_keyval k v :
  countByte "=" k = 0 -> countByte "=" v = 0 ->
  keyOf (k ++ String "=" v) = k /\ valOf (k ++ String "=" v) = v.
Proof.
  intros Hk Hv. unfold keyOf, valOf. rewrite Split_keyval by assumption.
  split; reflexivity.
Qed.

Lemma switchKey_unrecognized mount key val :
  recognized key = false ->
  switchKey mount key val = (mount, Some (UnsupportedOption key)).
Proof.
  unfold recognized, switchKey. simpl.
  repeat match goal with
         | |- context [String.eqb key ?s] => destruct (String.eqb key s)
         end; simpl; intros H; try discriminate; reflexivity.
Qed.

(** What the [switch] does for a key it has a case for. *)
Lemma switchKey_recognized mount field :
  recognized (keyOf field) = true ->
  switchKey mount (keyOf field) (valOf field) = (overwrite mount [field], None).
Proof.
  unfold recognized, switchKey, overwrite, lastVal, hasKey. simpl.
  repeat match goal with
         | |- context [String.eqb (keyOf field) ?s] =>
             let E := fresh "E" in
             destruct (String.eqb (keyOf field) s) eqn:E;
             [apply String.eqb_eq in E; try rewrite E; simpl; intros _; reflexivity|]
         end.
  simpl. intros H. discriminate H.
Qed.

Lemma overwrite_nil mount : overwrite mount [] = mount.
Proof. destruct mount; reflexivity. Qed.

Lemma overwrite_cons mount field fields :
  overwrite (overwrite mount [field]) fields = overwrite mount (field :: fields).
Proof.
  unfold overwrite. cbn [lastVal Destination Type_ Source Options].
  repeat match goal with
         | |- context [lastVal ?k fields] => destruct (lastVal k fields)
         end;
  repeat match goal with
         | |- context [hasKey ?k field] => destruct (hasKey k field)
         end; reflexivity.
Qed.

(** The loop accepts any sequence of accepted tokens, and a later token
    overwrites what an earlier one has set. *)
Lemma rangeFields_overwrite fields : forall mount,
  forallb accepted fields = true ->
  rangeFields mount fields = (overwrite mount fields, None).
Proof.
  induction fields as [|f fields IH]; intros mount H.
  - now rewrite overwrite_nil.
  - cbn [forallb] in H. apply andb_true_iff in H as [Hf H].
    apply andb_true_iff in Hf as [Hkv Hrec]. apply Nat.eqb_eq in Hkv.
    cbn [rangeFields]. rewrite setField_keyval by exact Hkv.
    rewrite switchKey_recognized by exact Hrec.
    rewrite IH by exact H. now rewrite overwrite_cons.
Qed.

(** The loop stops with an error at a token that is not accepted. *)
Lemma setField_rejected mount field :
  accepted field = false -> snd (setField mount field) <> None.
Proof.
  unfold accepted, keyVal. intros H.
  destruct (Nat.eqb_spec (countByte "=" field) 1) as [E|E].
  - rewrite setField_keyval, switchKey_unrecognized by assumption.
    discriminate.
  - rewrite setField_not_keyval by exact E. discriminate.
Qed.

Lemma rangeFields_rejected pre tok post : forall mount,
  accepted tok = false ->
  snd (rangeFields mount (pre ++ tok :: post)) <> None.
Proof.
  induction pre as [|f pre IH]; intros mount H; cbn [app rangeFields].
  - pose proof (setField_rejected mount tok H) as Hs.
    destruct (setField mount tok) as [m' [e|]]; [discriminate|].
    exfalso. apply Hs. reflexivity.
  - destruct (setField mount f) as [m' [e|]]; [discriminate|]. now apply IH.
Qed.

Lemma rangeFields_expected_keyval pre tok post : forall mount,
  countByte "=" tok <> 1 ->
  forallb (fun f => negb (keyVal f) || recognized (keyOf f)) pre = true ->
  snd (rangeFields mount (pre ++ tok :: post)) = Some errExpectedKeyVal.
Proof.
  induction pre as [|f pre IH]; intros mount Htok Hpre; cbn [app rangeFields].
  - now rewrite setField_not_keyval by exact Htok.
  - cbn [forallb] in Hpre. apply andb_true_iff in Hpre as [Hf Hpre].
    unfold keyVal in Hf.
    destruct (Nat.eqb_spec (countByte "=" f) 1) as [E|E]; simpl in Hf.
    + rewrite setField_keyval, switchKey_recognized by assumption.
      now apply IH.
    + now rewrite setField_not_keyval by exact E.
Qed.

Lemma parseMountFlag_fields m fields :
  CSV.Read m = (fields, None) ->
  parseMountFlag m = rangeFields emptyMount fields.
Proof. intros H. unfold parseMountFlag. now rewrite H. Qed.

End MountFacts.

(* ===================================================================== *)
(** ** Theorems about parseMountFlag *)
(* ===================================================================== *)

Section MountTheorems.
Import Bytes BytesFacts SplitFacts MountFacts.

(** C4 (as amended).  The parser does not look at how often a key appears:
  when the csv reader yields tokens that each hold exactly one equals
  sign and a key of the switch, parsing succeeds, and every member of the
  mount holds the value of the last token that names it (an alias names
  the same member), or its zero value when no token names it. *)
Theorem repeated_key_last_wins (m : string) (fields : list string) :
CSV.Read m = (fields, None) ->
forallb accepted fields = true ->
parseMountFlag m = (overwrite emptyMount fields, None).
Proof.
intros Hread Hall.
rewrite (parseMountFlag_fields _ Hread).
apply rangeFields_overwrite, Hall.
Qed.

(** C6 (as amended).  A token is split at every equals sign, not at the
  first one only: a token with no or with several equals signs is
  rejected with the key=val error, and a token with exactly one is handed
  to the switch with the text before the sign as the key and the text
  after it as the value. *)
Theorem token_split_at_every_equals (mount : Mount) (field : string) :
List.length (Split field "=") = S (countByte "=" field) /\
(countByte "=" field <> 1 ->
 setField mount field = (mount, Some errExpectedKeyVal)) /\
(forall key val,
   field = (key ++ "=" ++ val)%string ->
   countByte "=" key = 0 -> countByte "=" val = 0 ->
   setField mount field = switchKey mount key val).
Proof.
split; [apply Split_length|]. split; [apply setField_not_keyval|].
intros key val -> Hk Hv.
change (key ++ "=" ++ val)%string with (key ++ String "=" val)%string.
destruct (keyOf_keyval _ _ Hk Hv) as [Ek Ev].
rewrite setField_keyval, Ek, Ev; [reflexivity|].
rewrite countByte_app. cbn [countByte]. rewrite Hk, Hv. reflexivity.
Qed.

(** C9 (as amended).  A mount string one of whose tokens holds no equals
  sign is never parsed successfully; the error is the key=val one when
  every token in front of that token either has a key of the switch or
  does not hold exactly one equals sign itself. *)
Theorem token_without_equals_fails
(m : string) (fields pre : list string) (tok : string) (post : list string) :
CSV.Read m = (fields, None) ->
fields = pre ++ tok :: post ->
countByte "=" tok = 0 ->
snd (parseMountFlag m) <> None /\
(forallb (fun f => negb (keyVal f) || recognized (keyOf f)) pre = true ->
 snd (parseMountFlag m) = Some errExpectedKeyVal).
Proof.
intros Hread -> Htok. rewrite (parseMountFlag_fields _ Hread). split.
- apply rangeFields_rejected. unfold accepted, keyVal. now rewrite Htok.
- apply rangeFields_expected_keyval. lia.
Qed.

End MountTheorems.

(* ===================================================================== *)
(** ** Mount strings of the documented form *)
(* ===================================================================== *)

Module LastVal.

Lemma lastVal_some keys l v :
  lastVal keys l = Some v ->
  exists g, In g l /\ hasKey keys g = true /\ valOf g = v.
Proof.
  induction l as [|f l IH]; simpl; [discriminate|].
  destruct (lastVal keys l) as [v'|].
  - intros E. inversion E; subst.
    destruct (IH eq_refl) as (g & Hg & Hk & Hv). exists g. auto.
  - destruct (hasKey keys f) eqn:Hf; [|discriminate].
    intros E. inversion E; subst. exists f. auto.
Qed.

Lemma lastVal_none keys l g :
  lastVal keys l = None -> In g l -> hasKey keys g = false.
Proof.
  induction l as [|f l IH]; simpl; [tauto|].
  destruct (lastVal keys l) as [v'|]; [discriminate|].
  destruct (hasKey keys f) eqn:Hf; [discriminate|].
  intros _ [<-|Hin]; [exact Hf|apply IH; auto].
Qed.

(** When all the tokens with a key of [keys] carry the same value, that
    value is the last one, wherever the tokens stand. *)
Lemma lastVal_unique keys l f :
  In f l -> hasKey keys f = true ->
  (forall g, In g l -> hasKey keys g = true -> valOf g = valOf f) ->
  lastVal keys l = Some (valOf f).
Proof.
  intros Hin Hf Hall.
  destruct (lastVal keys l) as [v|] eqn:E.
  - destruct (lastVal_some _ _ E) as (g & Hg & Hk & Hv).
    rewrite <- Hv. f_equal. apply Hall; assumption.
  - rewrite (lastVal_none _ _ f E Hin) in Hf. discriminate.
Qed.

End LastVal.

Section ValidMountString.
Import Bytes BytesFacts SplitFacts CSVPlain MountFacts LastVal.

(** The values [T], [S] and [D] and the options [o1] and [o2] are written
    into the mount string as they are, so they hold no byte that the csv
    reader or the parser gives a meaning to. *)
Variables T S D o1 o2 : string.
Hypothesis HT : noneOf valueDelims T = true.
Hypothesis HS : noneOf valueDelims S = true.
Hypothesis HD : noneOf valueDelims D = true.
Hypothesis Ho1 : noneOf optionDelims o1 = true.
Hypothesis Ho2 : noneOf optionDelims o2 = true.

Let tokType := ("type=" ++ T)%string.
Let tokSource := ("source=" ++ S)%string.
Let tokDestination := ("destination=" ++ D)%string.
Let tokOptions := ("options=" ++ o1 ++ ":" ++ o2)%string.
Let tokens := [tokType; tokSource; tokDestination; tokOptions].

Lemma noneOf_glue bad s c t :
  noneOf bad s = true -> noneOf bad t = true ->
  existsb (Ascii.eqb c) bad = false ->
  noneOf bad (s ++ String c t) = true.
Proof.
  unfold noneOf. rewrite !forallb_forall. intros Hs Ht Hc x Hx.
  specialize (Hs x Hx). specialize (Ht x Hx).
  apply Nat.eqb_eq in Hs, Ht.
  rewrite countByte_app. cbn [countByte]. rewrite Hs, Ht.
  destruct (Ascii.eqb c x) eqn:E; [|reflexivity].
  exfalso. assert (existsb (Ascii.eqb c) bad = true); [|congruence].
  apply existsb_exists. exists x. auto.
Qed.

Lemma options_value : noneOf valueDelims (o1 ++ String ":" o2) = true.
Proof.
  apply noneOf_glue; [| |reflexivity];
    (eapply noneOf_incl; [|eassumption]); apply incl_tl, incl_refl.
Qed.

(** A token [key=val] with a key of the switch and such a value. *)
Lemma token_of key val :
  noneOf valueDelims key = true -> noneOf valueDelims val = true ->
  recognized key = true ->
  let tok := (key ++ String "=" val)%string in
  keyOf tok = key /\ valOf tok = val /\ accepted tok = true /\ plain tok.
Proof.
  intros Hk Hv Hrec tok.
  assert (Ek : countByte "=" key = 0) by (eapply noneOf_count; [eassumption|simpl; auto]).
  assert (Ev : countByte "=" val = 0) by (eapply noneOf_count; [eassumption|simpl; auto]).
  destruct (keyOf_keyval _ _ Ek Ev) as [E1 E2].
  repeat split; try assumption.
  - unfold accepted, keyVal. fold tok in E1. rewrite E1, Hrec.
    unfold tok. rewrite countByte_app. cbn [countByte]. rewrite Ek, Ev.
    reflexivity.
  - unfold plain. apply noneOf_glue; [| |reflexivity];
      (eapply noneOf_incl; [|eassumption]); apply incl_tl, incl_refl.
Qed.

Lemma tokens_ok :
  (keyOf tokType = "type" /\ valOf tokType = T /\
   accepted tokType = true /\ plain tokType) /\
  (keyOf tokSource = "source" /\ valOf tokSource = S /\
   accepted tokSource = true /\ plain tokSource) /\
  (keyOf tokDestination = "destination" /\ valOf tokDestination = D /\
   accepted tokDestination = true /\ plain tokDestination) /\
  (keyOf tokOptions = "options" /\ valOf tokOptions = (o1 ++ String ":" o2)%string /\
   accepted tokOptions = true /\ plain tokOptions).
Proof.
  repeat split;
    try (apply (token_of "type" T); (assumption || reflexivity));
    try (apply (token_of "source" S); (assumption || reflexivity));
    try (apply (token_of "destination" D); (assumption || reflexivity));
    try (apply (token_of "options" (o1 ++ String ":" o2));
         (apply options_value || reflexivity)).
Qed.

Lemma join_not_empty (l : list string) :
  List.length l = 4 -> join "," l <> "".
Proof.
  destruct l as [|a [|b l]]; try discriminate. intros _.
  rewrite join_cons. destruct a; discriminate.
Qed.

(** Any arrangement of the four tokens parses to the same mount. *)
Lemma parse_arrangement toks :
  Permutation tokens toks ->
  parseMountFlag (join "," toks) = (mkMount D T S [o1; o2], None).
Proof.
  intros Hperm.
  destruct tokens_ok as ((Kt & Vt & At & Pt) & (Ks & Vs & As & Ps) &
                         (Kd & Vd & Ad & Pd) & (Ko & Vo & Ao & Po)).
  assert (Hin : forall g, In g toks ->
            g = tokType \/ g = tokSource \/ g = tokDestination \/ g = tokOptions).
  { intros g Hg. apply (Permutation_in _ (Permutation_sym Hperm)) in Hg.
    simpl in Hg. intuition. }
  assert (Hhas : forall g, In g tokens -> In g toks)
    by (intros g; apply Permutation_in, Hperm).
  assert (Hplain : Forall plain toks).
  { apply Forall_forall. intros g Hg.
    destruct (Hin g Hg) as [->|[->|[->| ->]]]; assumption. }
  assert (Hacc : forallb accepted toks = true).
  { apply forallb_forall. intros g Hg.
    destruct (Hin g Hg) as [->|[->|[->| ->]]]; assumption. }
  assert (Hread : CSV.Read (join "," toks) = (toks, None)).
  { apply Read_plain; [exact Hplain|]. apply join_not_empty.
    now rewrite <- (Permutation_length Hperm). }
  rewrite (parseMountFlag_fields _ Hread).
  rewrite rangeFields_overwrite by exact Hacc.
  unfold overwrite.
  rewrite (@lastVal_unique destinationKeys toks tokDestination),
          (@lastVal_unique typeKeys toks tokType),
          (@lastVal_unique sourceKeys toks tokSource),
          (@lastVal_unique optionsKeys toks tokOptions).
  - rewrite Vd, Vt, Vs, Vo. cbn [orElse]. rewrite Split_keyval; [reflexivity| |];
      (eapply noneOf_count; [eassumption|simpl; auto]).
  - apply Hhas. simpl; auto.
  - unfold hasKey. rewrite Ko. reflexivity.
  - intros g Hg. unfold hasKey.
    destruct (Hin g Hg) as [->|[->|[->| ->]]];
      rewrite ?Kt, ?Ks, ?Kd, ?Ko; simpl; congruence.
  - apply Hhas. simpl; auto.
  - unfold hasKey. rewrite Ks. reflexivity.
  - intros g Hg. unfold hasKey.
    destruct (Hin g Hg) as [->|[->|[->| ->]]];
      rewrite ?Kt, ?Ks, ?Kd, ?Ko; simpl; congruence.
  - apply Hhas. simpl; auto.
  - unfold hasKey. rewrite Kt. reflexivity.
  - intros g Hg. unfold hasKey.
    destruct (Hin g Hg) as [->|[->|[->| ->]]];
      rewrite ?Kt, ?Ks, ?Kd, ?Ko; simpl; congruence.
  - apply Hhas. simpl; auto.
  - unfold hasKey. rewrite Kd. reflexivity.
  - intros g Hg. unfold hasKey.
    destruct (Hin g Hg) as [->|[->|[->| ->]]];
      rewrite ?Kt, ?Ks, ?Kd, ?Ko; simpl; congruence.
Qed.

End ValidMountString.

(** C5.  For values [T], [S], [D] and options [o1], [o2] that hold none of
    the bytes with a meaning in a mount string (comma, quote, line feed,
    carriage return, equals sign and, for an option, colon), the string
    [type=T,source=S,destination=D,options=o1:o2] parses to the mount with
    these members, and so does the string with its four tokens in any
    other order. *)
Theorem parse_valid_mount_string (T S D o1 o2 : string) :
  noneOf valueDelims T = true ->
  noneOf valueDelims S = true ->
  noneOf valueDelims D = true ->
  noneOf optionDelims o1 = true ->
  noneOf optionDelims o2 = true ->
  parseMountFlag ("type=" ++ T ++ ",source=" ++ S ++ ",destination=" ++ D
                  ++ ",options=" ++ o1 ++ ":" ++ o2)
  = (mkMount D T S [o1; o2], None) /\
  forall toks,
    Permutation ["type=" ++ T; "source=" ++ S; "destination=" ++ D;
                 "options=" ++ o1 ++ ":" ++ o2]%string toks ->
    parseMountFlag (Bytes.join "," toks) = (mkMount D T S [o1; o2], None).
Proof.
  intros HT HS HD Ho1 Ho2.
  pose proof (@parse_arrangement T S D o1 o2 HT HS HD Ho1 Ho2) as H.
  split; [|exact H].
  specialize (H _ (Permutation_refl _)).
  exact H.
Qed.

(* ===================================================================== *)
(** ** Running Action symbolically *)
(* ===================================================================== *)

(** [Action] is straight-line code with early returns, so a run is settled
    by the flags and by what the world answers to each call in turn.
    [run_cases] follows the code along every such path; on each path the
    log is a list of known events. *)
Ltac unfold_run :=
  unfold Run, Action, bind, when, check, call, emit, defer, ret, return_,
         receive, taskPid;
  cbn [log defers tty detach config rm pidFileSet negb];
  rewrite ?andb_false_r, ?andb_true_r.

Ltac step :=
  match goal with
  | |- context [match errOf ?w ?h with _ => _ end] => destruct (errOf w h) eqn:?
  | |- context [match statusOf ?w ?h with _ => _ end] => destruct (statusOf w h) eqn:?
  | |- context [match err ?s with _ => _ end] => destruct (err s) eqn:?
  | |- context [if ?b then _ else _] => destruct b eqn:?
  end.

Ltac run_cases :=
  unfold_run; repeat (step; cbn -[Z.eqb int String.eqb Nat.ltb Get]).

(** Reads what a hypothesis says about a known log, and drops the paths
    that it excludes. *)
Ltac read_log :=
  intros;
  repeat match goal with
         | H : False |- _ => destruct H
         | H : _ /\ _ |- _ => destruct H
         | H : _ \/ _ |- _ => destruct H
         | H : @eq event ?a ?b |- _ =>
             first [discriminate H | injection H as H; subst | clear H]
         end;
  cbn [err code] in *; try congruence.

(** Finds the place in a known log where a statement about it holds. *)
Ltac find_event :=
  cbn; repeat first [left; repeat split; reflexivity | right].

Module RunFacts.

Lemma int_uint32 x : (0 <= x < 2 ^ 32)%Z -> int x = x.
Proof. intros H. unfold int. rewrite Z.mod_small by lia. lia. Qed.

(** What comes before the first event satisfying [p] comes before any
    event satisfying [p]. *)
Lemma before_prefix (p : event -> bool) x y pre post :
  p x = true -> In y (before p (pre ++ x :: post)) -> In y pre.
Proof.
  intros Hx. induction pre as [|a pre IH]; cbn [app before].
  - rewrite Hx. auto.
  - destruct (p a); [intros []|]. intros [->|H]; [left|right]; auto.
Qed.

(** In an attached run the start call is never the first to be made: a
    wait that succeeded stands before it. *)
Lemma wait_in_before_start w c r :
  detach c = false ->
  In (TaskStart r) (snd (Run w c)) ->
  In (TaskWait None) (before isTaskStart (snd (Run w c))).
Proof.
  destruct c as [args isTty isDetach isConfig isRm isNullIO uri dir chk
                 hasPidFile path].
  cbn [detach]. intros ->. run_cases.
  all: read_log.
  all: cbn; tauto.
Qed.

End RunFacts.

(* ===================================================================== *)
(** ** Theorems about Action *)
(* ===================================================================== *)

(** C1 (as amended).  In an attached run in which the task reports exit
    code 0, task deletion is invoked exactly twice over the whole run (once
    by the call that follows the exit status, once more by the deferred
    call when Action returns), and the run succeeds when the first of the
    two, the one that follows the exit status, succeeds. *)
Theorem attached_exit_zero (w : World) (c : Context) :
  detach c = false ->
  In (ReceiveStatus (mkStatus 0 None)) (snd (Run w c)) ->
  count isTaskDelete (snd (Run w c)) = 2 /\
  (follows (ReceiveStatus (mkStatus 0 None)) (TaskDelete None) (snd (Run w c)) ->
   fst (Run w c) = Returned None).
Proof.
  destruct c as [args isTty isDetach isConfig isRm isNullIO uri dir chk
                 hasPidFile path].
  cbn [detach]. intros ->. run_cases.
  all: read_log.
  all: split; [reflexivity|]; read_log.
  all: match goal with H : negb (Z.eqb _ _) = true |- _ => discriminate H end.
Qed.

(** C2 (as amended).  In a run in which putting the console into raw mode
    fails, the instance has been created before (by the one and only
    instance-creation call, which succeeded), no task-creation call is
    made, the run returns the error of SetRaw, the console is reset once,
    and the instance is deleted exactly when rm is set and the run is not
    detached. *)
Theorem setraw_failure (w : World) (c : Context) (e : error) :
  In (ConsoleSetRaw (Some e)) (snd (Run w c)) ->
  fst (Run w c) = Returned (Some e) /\
  In (NewContainer None) (before isConsoleSetRaw (snd (Run w c))) /\
  count isNewContainer (snd (Run w c)) = 1 /\
  count isNewTask (snd (Run w c)) = 0 /\
  count isConsoleReset (snd (Run w c)) = 1 /\
  count isContainerDelete (snd (Run w c))
  = (if rm c && negb (detach c) then 1 else 0).
Proof.
  destruct c as [args isTty isDetach isConfig isRm isNullIO uri dir chk
                 hasPidFile path].
  cbn [detach rm]. run_cases.
  all: read_log.
  all: repeat split; try reflexivity; cbn; tauto.
Qed.

(** C3.  In a detached run whose start call succeeds, Action returns
    success, and no wait, no receipt of an exit status, no signal
    forwarding, no resize forwarding and no task deletion is in the log;
    after the start call nothing happens but the deferred reset of the
    console and the cancel of the context. *)
Theorem detached_returns_after_start (w : World) (c : Context) :
  detach c = true ->
  In (TaskStart None) (snd (Run w c)) ->
  fst (Run w c) = Returned None /\
  count isTaskWait (snd (Run w c)) = 0 /\
  count isReceiveStatus (snd (Run w c)) = 0 /\
  count isForwardAllSignals (snd (Run w c)) = 0 /\
  count isHandleConsoleResize (snd (Run w c)) = 0 /\
  count isTaskDelete (snd (Run w c)) = 0 /\
  forallb isLocalCleanup (after isTaskStart (snd (Run w c))) = true.
Proof.
  destruct c as [args isTty isDetach isConfig isRm isNullIO uri dir chk
                 hasPidFile path].
  cbn [detach]. intros ->. run_cases.
  all: read_log.
  all: repeat split; reflexivity.
Qed.

(** C7 (as amended).  In an attached run in which the task reports a
    non-zero exit code N and the task deletion that follows the exit status
    succeeds, Action returns the exit error with code N and the empty
    message. *)
Theorem attached_exit_nonzero (w : World) (c : Context) (N : Z) :
  detach c = false ->
  (0 <= N < 2 ^ 32)%Z ->
  N <> 0%Z ->
  follows (ReceiveStatus (mkStatus N None)) (TaskDelete None) (snd (Run w c)) ->
  fst (Run w c) = Returned (Some (ExitError "" N)).
Proof.
  destruct c as [args isTty isDetach isConfig isRm isNullIO uri dir chk
                 hasPidFile path].
  cbn [detach]. intros -> HN HN0. run_cases.
  all: read_log.
  all: try (rewrite RunFacts.int_uint32 by lia; reflexivity).
  all: match goal with
       | H : negb (Z.eqb _ _) = false |- _ =>
           apply negb_false_iff in H; apply Z.eqb_eq in H; contradiction
       end.
Qed.

(** C8.  In an attached run in which the exit status holds no error and
    the task deletion that follows it fails, Action returns the error of
    that deletion, whatever the exit code is. *)
Theorem delete_error_overrides (w : World) (c : Context)
        (s : ExitStatus) (e : error) :
  detach c = false ->
  err s = None ->
  follows (ReceiveStatus s) (TaskDelete (Some e)) (snd (Run w c)) ->
  fst (Run w c) = Returned (Some e).
Proof.
  destruct c as [args isTty isDetach isConfig isRm isNullIO uri dir chk
                 hasPidFile path].
  cbn [detach]. intros -> Hs. run_cases.
  all: read_log.
Qed.

(** C10.  In an attached run every start call comes after a wait call that
    succeeded: the channel of the exit status exists before the task is
    started. *)
Theorem wait_before_start (w : World) (c : Context)
        (pre : list event) (r : option error) (post : list event) :
  detach c = false ->
  snd (Run w c) = pre ++ TaskStart r :: post ->
  In (TaskWait None) pre.
Proof.
  intros Hd Hlog.
  apply (@RunFacts.before_prefix isTaskStart (TaskStart r) _ pre post eq_refl).
  rewrite <- Hlog. apply RunFacts.wait_in_before_start with (r := r); [exact Hd|].
  rewrite Hlog. apply in_elt.
Qed.

(* ===================================================================== *)
(** ** The theorems at work, and inputs on which the code departs from
       what one might expect *)
(* ===================================================================== *)

(** A key that appears twice is accepted; the later value stays. *)
Lemma repeated_key_is_accepted :
  parseMountFlag "type=a,type=b" = (mkMount "" "b" "" [], None).
Proof. vm_compute. reflexivity. Qed.

Lemma repeated_key_last_wins_witness :
  CSV.Read "type=a,type=b" = (["type=a"; "type=b"], None) /\
  forallb accepted ["type=a"; "type=b"] = true /\
  parseMountFlag "type=a,type=b"
  = (overwrite emptyMount ["type=a"; "type=b"], None).
Proof.
  split; [vm_compute; reflexivity|]. split; [vm_compute; reflexivity|].
  apply (@repeated_key_last_wins "type=a,type=b" ["type=a"; "type=b"]);
    vm_compute; reflexivity.
Defined.

Lemma parse_valid_mount_string_witness :
  noneOf valueDelims "bind" = true /\
  noneOf valueDelims "/src" = true /\
  noneOf valueDelims "/dst" = true /\
  noneOf optionDelims "rbind" = true /\
  noneOf optionDelims "rw" = true /\
  parseMountFlag "type=bind,source=/src,destination=/dst,options=rbind:rw"
  = (mkMount "/dst" "bind" "/src" ["rbind"; "rw"], None) /\
  parseMountFlag (Bytes.join ","
    ["options=rbind:rw"; "destination=/dst"; "type=bind"; "source=/src"])
  = (mkMount "/dst" "bind" "/src" ["rbind"; "rw"], None).
Proof.
  do 5 (split; [vm_compute; reflexivity|]).
  destruct (@parse_valid_mount_string "bind" "/src" "/dst" "rbind" "rw")
    as [Hfirst Hany]; try (vm_compute; reflexivity).
  split; [exact Hfirst|]. apply Hany.
  apply Permutation_sym.
  apply perm_trans with
    (["destination=/dst"; "options=rbind:rw"; "type=bind"; "source=/src"]);
    [apply perm_swap|].
  apply perm_trans with
    (["destination=/dst"; "type=bind"; "options=rbind:rw"; "source=/src"]);
    [apply perm_skip, perm_swap|].
  apply perm_trans with
    (["type=bind"; "destination=/dst"; "options=rbind:rw"; "source=/src"]);
    [apply perm_swap|].
  apply perm_skip.
  apply perm_trans with
    (["destination=/dst"; "source=/src"; "options=rbind:rw"]);
    [apply perm_skip, perm_swap|]. apply perm_swap.
Defined.

(** A value that holds an equals sign makes the token fail. *)
Lemma equals_in_value_is_rejected :
  Split "options=a=b" "=" = ["options"; "a"; "b"] /\
  parseMountFlag "options=a=b" = (emptyMount, Some errExpectedKeyVal).
Proof. split; vm_compute; reflexivity. Qed.

Lemma token_split_at_every_equals_witness :
  setField emptyMount "options=a=b" = (emptyMount, Some errExpectedKeyVal) /\
  setField emptyMount "options=a" = switchKey emptyMount "options" "a".
Proof.
  split.
  - apply (token_split_at_every_equals emptyMount "options=a=b").
    vm_compute. discriminate.
  - apply (token_split_at_every_equals emptyMount "options=a");
      vm_compute; reflexivity.
Defined.

(** A token without an equals sign that stands behind a token with an
    unknown key: the error names the key, it is not the key=val one. *)
Lemma unknown_key_is_reported_first :
  CSV.Read "foo=bar,typeT" = (["foo=bar"; "typeT"], None) /\
  Bytes.countByte "=" "typeT" = 0 /\
  parseMountFlag "foo=bar,typeT" = (emptyMount, Some (UnsupportedOption "foo")) /\
  snd (parseMountFlag "foo=bar,typeT") <> Some errExpectedKeyVal.
Proof.
  repeat split; try (vm_compute; reflexivity). vm_compute. discriminate.
Qed.

Lemma token_without_equals_fails_witness :
  CSV.Read "type=bind,src" = (["type=bind"; "src"], None) /\
  Bytes.countByte "=" "src" = 0 /\
  forallb (fun f => negb (keyVal f) || recognized (keyOf f)) ["type=bind"] = true /\
  snd (parseMountFlag "type=bind,src") <> None /\
  snd (parseMountFlag "type=bind,src") = Some errExpectedKeyVal.
Proof.
  do 3 (split; [vm_compute; reflexivity|]).
  destruct (@token_without_equals_fails "type=bind,src" ["type=bind"; "src"]
              ["type=bind"] "src" []) as [Hfail Herr];
    try (vm_compute; reflexivity).
  split; [exact Hfail|]. apply Herr. vm_compute. reflexivity.
Defined.

(** [ctr run --rm img c1] with a task that exits with code 0: the task is
    deleted twice. *)
Lemma task_deleted_twice :
  let r := Run (worldOf allSucceed (mkStatus 0 None)) runRm in
  detach runRm = false /\
  In (ReceiveStatus (mkStatus 0 None)) (snd r) /\
  fst r = Returned None /\
  count isTaskDelete (snd r) <> 1.
Proof.
  cbv zeta. split; [reflexivity|]. split; [find_event|].
  split; [reflexivity|]. vm_compute. discriminate.
Qed.

Lemma attached_exit_zero_witness :
  let w := worldOf allSucceed (mkStatus 0 None) in
  detach runRm = false /\
  In (ReceiveStatus (mkStatus 0 None)) (snd (Run w runRm)) /\
  follows (ReceiveStatus (mkStatus 0 None)) (TaskDelete None) (snd (Run w runRm)) /\
  count isTaskDelete (snd (Run w runRm)) = 2 /\
  fst (Run w runRm) = Returned None.
Proof.
  cbv zeta.
  assert (Hin : In (ReceiveStatus (mkStatus 0 None))
                   (snd (Run (worldOf allSucceed (mkStatus 0 None)) runRm)))
    by find_event.
  assert (Hfol : follows (ReceiveStatus (mkStatus 0 None)) (TaskDelete None)
                   (snd (Run (worldOf allSucceed (mkStatus 0 None)) runRm)))
    by find_event.
  destruct (@attached_exit_zero (worldOf allSucceed (mkStatus 0 None)) runRm
              eq_refl Hin) as [Hcount Hok].
  split; [reflexivity|]. split; [exact Hin|]. split; [exact Hfol|].
  split; [exact Hcount|exact (Hok Hfol)].
Defined.

(** [ctr run --rm --tty img c1] on a console that refuses raw mode: the
    instance has been created, and it is deleted again. *)
Lemma instance_created_before_raw_mode :
  let e := ErrorString "inappropriate ioctl for device" in
  let r := Run (worldOf (failAfter isConsoleCurrent e) (mkStatus 0 None)) runRmTty in
  In (ConsoleSetRaw (Some e)) (snd r) /\
  count isNewContainer (snd r) <> 0 /\
  count isContainerDelete (snd r) <> 0.
Proof.
  cbv zeta. split; [find_event|]. split; vm_compute; discriminate.
Qed.

Lemma setraw_failure_witness :
  let e := ErrorString "inappropriate ioctl for device" in
  let r := Run (worldOf (failAfter isConsoleCurrent e) (mkStatus 0 None)) runRmTty in
  In (ConsoleSetRaw (Some e)) (snd r) /\
  fst r = Returned (Some e) /\
  count isNewContainer (snd r) = 1 /\
  count isNewTask (snd r) = 0 /\
  count isContainerDelete (snd r) = 1.
Proof.
  cbv zeta.
  assert (Hin : In (ConsoleSetRaw (Some (ErrorString "inappropriate ioctl for device")))
    (snd (Run (worldOf (failAfter isConsoleCurrent
                          (ErrorString "inappropriate ioctl for device"))
                       (mkStatus 0 None)) runRmTty))) by find_event.
  destruct (setraw_failure _ _ _ Hin) as (Hret & _ & Hnew & Htask & _ & Hdel).
  split; [exact Hin|]. split; [exact Hret|]. split; [exact Hnew|].
  split; [exact Htask|exact Hdel].
Defined.

Lemma detached_returns_after_start_witness :
  let r := Run (worldOf allSucceed (mkStatus 0 None)) runDetachTty in
  detach runDetachTty = true /\
  In (TaskStart None) (snd r) /\
  fst r = Returned None /\
  count isTaskWait (snd r) = 0 /\
  count isTaskDelete (snd r) = 0 /\
  forallb isLocalCleanup (after isTaskStart (snd r)) = true.
Proof.
  cbv zeta.
  assert (Hin : In (TaskStart None)
    (snd (Run (worldOf allSucceed (mkStatus 0 None)) runDetachTty)))
    by find_event.
  destruct (@detached_returns_after_start _ runDetachTty eq_refl Hin)
    as (Hret & Hwait & _ & _ & _ & Hdel & Hafter).
  split; [reflexivity|]. split; [exact Hin|]. split; [exact Hret|].
  split; [exact Hwait|]. split; [exact Hdel|exact Hafter].
Defined.

(** [ctr run --rm img c1] with a task that exits with code 3 and a task
    deletion that fails: the exit code is lost. *)
Lemma delete_failure_hides_exit_code :
  let e := ErrorString "task must be stopped before deletion" in
  let r := Run (worldOf (failAfter isReceiveStatus e) (mkStatus 3 None)) runRm in
  detach runRm = false /\
  In (ReceiveStatus (mkStatus 3 None)) (snd r) /\
  fst r = Returned (Some e) /\
  fst r <> Returned (Some (ExitError "" 3)).
Proof.
  cbv zeta. split; [reflexivity|]. split; [find_event|].
  split; [reflexivity|]. vm_compute. discriminate.
Qed.

Lemma attached_exit_nonzero_witness :
  let r := Run (worldOf allSucceed (mkStatus 3 None)) runRm in
  detach runRm = false /\
  (0 <= 3 < 2 ^ 32)%Z /\
  3%Z <> 0%Z /\
  follows (ReceiveStatus (mkStatus 3 None)) (TaskDelete None) (snd r) /\
  fst r = Returned (Some (ExitError "" 3)).
Proof.
  cbv zeta.
  assert (Hfol : follows (ReceiveStatus (mkStatus 3 None)) (TaskDelete None)
    (snd (Run (worldOf allSucceed (mkStatus 3 None)) runRm))) by find_event.
  assert (Hrange : (0 <= 3 < 2 ^ 32)%Z) by lia.
  assert (Hnz : 3%Z <> 0%Z) by discriminate.
  split; [reflexivity|]. split; [exact Hrange|]. split; [exact Hnz|].
  split; [exact Hfol|].
  exact (@attached_exit_nonzero _ runRm 3%Z eq_refl Hrange Hnz Hfol).
Defined.

Lemma delete_error_overrides_witness :
  let e := ErrorString "task must be stopped before deletion" in
  let r := Run (worldOf (failAfter isReceiveStatus e) (mkStatus 3 None)) runRm in
  detach runRm = false /\
  err (mkStatus 3 None) = None /\
  follows (ReceiveStatus (mkStatus 3 None)) (TaskDelete (Some e)) (snd r) /\
  fst r = Returned (Some e).
Proof.
  cbv zeta.
  assert (Hfol : follows (ReceiveStatus (mkStatus 3 None))
    (TaskDelete (Some (ErrorString "task must be stopped before deletion")))
    (snd (Run (worldOf (failAfter isReceiveStatus
                 (ErrorString "task must be stopped before deletion"))
               (mkStatus 3 None)) runRm))) by find_event.
  split; [reflexivity|]. split; [reflexivity|]. split; [exact Hfol|].
  exact (@delete_error_overrides _ runRm (mkStatus 3 None) _ eq_refl eq_refl Hfol).
Defined.

Lemma wait_before_start_witness :
  let r := Run (worldOf allSucceed (mkStatus 0 None)) runRm in
  detach runRm = false /\
  snd r = [NewClient None; NewContainer None; NewTask "" false false "" "" None;
           TaskWait None]
          ++ TaskStart None
          :: [ForwardAllSignals; ReceiveStatus (mkStatus 0 None); TaskDelete None;
              StopCatch; TaskDelete None; ContainerDelete None; Cancel] /\
  In (TaskWait None)
     [NewClient None; NewContainer None; NewTask "" false false "" "" None;
      TaskWait None].
Proof.
  cbv zeta. split; [reflexivity|]. split; [reflexivity|].
  apply (@wait_before_start (worldOf allSucceed (mkStatus 0 None)) runRm
           [NewClient None; NewContainer None;
            NewTask "" false false "" "" None; TaskWait None]
           None
           [ForwardAllSignals; ReceiveStatus (mkStatus 0 None); TaskDelete None;
            StopCatch; TaskDelete None; ContainerDelete None; Cancel]
           eq_refl eq_refl).
Defined.

(* ===================================================================== *)
(** ** More about parseMountFlag and withMounts *)
(* ===================================================================== *)

Module MoreMountFacts.
Import Bytes BytesFacts SplitFacts MountFacts.

Lemma forallb_first_false {A} (p : A -> bool) (l : list A) :
  forallb p l = false ->
  exists pre x post, l = pre ++ x :: post /\ forallb p pre = true /\ p x = false.
Proof.
  induction l as [|a l IH]; cbn [forallb]; [discriminate|].
  destruct (p a) eqn:Ha; cbn [andb].
  - intros H. destruct (IH H) as (pre & x & post & -> & Hpre & Hx).
    exists (a :: pre), x, post. cbn [forallb]. rewrite Ha. auto.
  - intros _. exists [], a, l. auto.
Qed.

(** The loop takes the accepted tokens it meets and goes on. *)
Lemma rangeFields_app pre : forall mount rest,
  forallb accepted pre = true ->
  rangeFields mount (pre ++ rest) = rangeFields (overwrite mount pre) rest.
Proof.
  induction pre as [|f pre IH]; intros mount rest H.
  - now rewrite overwrite_nil.
  - cbn [forallb] in H. apply andb_true_iff in H as [Hf H].
    apply andb_true_iff in Hf as [Hkv Hrec]. apply Nat.eqb_eq in Hkv.
    cbn [app rangeFields]. rewrite setField_keyval by exact Hkv.
    rewrite switchKey_recognized by exact Hrec.
    rewrite IH by exact H. now rewrite overwrite_cons.
Qed.

Lemma setField_errorOf mount tok :
  accepted tok = false -> setField mount tok = (mount, Some (errorOf tok)).
Proof.
  unfold accepted, errorOf, keyVal. intros H.
  destruct (Nat.eqb_spec (countByte "=" tok) 1) as [E|E].
  - now rewrite setField_keyval, switchKey_unrecognized.
  - now rewrite setField_not_keyval.
Qed.

Lemma rangeFields_congr a b pre post : forall mount,
  (forall m, setField m a = setField m b) ->
  rangeFields mount (pre ++ a :: post) = rangeFields mount (pre ++ b :: post).
Proof.
  intros mount H. revert mount.
  induction pre as [|f pre IH]; intros mount; cbn [app rangeFields].
  - now rewrite H.
  - destruct (setField mount f) as [m' [e|]]; [reflexivity|apply IH].
Qed.

Lemma setField_alias mount short long v :
  In (short, long) aliases ->
  setField mount (short ++ "=" ++ v) = setField mount (long ++ "=" ++ v).
Proof.
  intros [E|[E|[]]]; inversion E; subst; unfold setField; simpl;
    destruct (Split v "=") as [|x [|y l]]; reflexivity.
Qed.

Lemma Split_not_nil s c : Split s c <> [].
Proof.
  intros H. pose proof (Split_length s c) as L. rewrite H in L. discriminate.
Qed.

(** Joining the pieces with the separator gives the string back. *)
Lemma Split_join s c : join (String c "") (Split s c) = s.
Proof.
  induction s as [|a s IH]; [reflexivity|]. cbn [Split].
  pose proof (Split_not_nil s c) as Hne.
  destruct (Split s c) as [|x xs]; [congruence|].
  assert (Hcons : forall f g l, join (String c "") (f :: g :: l)
                  = (f ++ String c "" ++ join (String c "") (g :: l))%string)
    by reflexivity.
  destruct (Ascii.eqb_spec a c) as [->|Hac].
  - rewrite Hcons, IH. reflexivity.
  - destruct xs as [|y ys].
    + cbn [join] in *. now rewrite IH.
    + rewrite Hcons in *. rewrite <- IH. reflexivity.
Qed.

Lemma withMounts_acc flags : forall acc,
  withMounts flags acc
  = (acc ++ fst (withMounts flags []), snd (withMounts flags [])).
Proof.
  induction flags as [|f flags IH]; intros acc; cbn [withMounts].
  - now rewrite app_nil_r.
  - destruct (parseMountFlag f) as [m [e|]]; cbn [fst snd].
    + now rewrite app_nil_r.
    + rewrite (IH (acc ++ [m])), (IH ([] ++ [m])). cbn [fst snd app].
      now rewrite <- app_assoc.
Qed.

End MoreMountFacts.

Section MoreMountTheorems.
Import Bytes BytesFacts SplitFacts MountFacts MoreMountFacts.

(** X1.  A mount string parses exactly when the csv reader yields its
    tokens without an error and the loop accepts every one of them. *)
Theorem parses_iff_all_accepted (m : string) :
  snd (parseMountFlag m) = None <->
  snd (CSV.Read m) = None /\ forallb accepted (fst (CSV.Read m)) = true.
Proof.
  unfold parseMountFlag. destruct (CSV.Read m) as [fields [e|]]; cbn [fst snd].
  - split; [discriminate|intros [H _]; discriminate].
  - split.
    + intros H. split; [reflexivity|].
      destruct (forallb accepted fields) eqn:E; [reflexivity|].
      destruct (forallb_first_false _ _ E) as (pre & x & post & -> & _ & Hx).
      destruct (rangeFields_rejected pre x post emptyMount Hx H).
    + intros [_ H]. now rewrite rangeFields_overwrite.
Qed.

(** X2.  The first token that the loop does not accept decides the error,
    whatever follows it: the unsupported-option error with its key when it
    holds exactly one equals sign, the key=val error otherwise.  The mount
    returned with the error holds what the tokens before it have set. *)
Theorem first_rejected_token_decides
  (m : string) (pre : list string) (tok : string) (post : list string) :
  CSV.Read m = (pre ++ tok :: post, None) ->
  forallb accepted pre = true ->
  accepted tok = false ->
  parseMountFlag m = (overwrite emptyMount pre, Some (errorOf tok)).
Proof.
  intros Hread Hpre Htok. rewrite (parseMountFlag_fields _ Hread).
  rewrite rangeFields_app by exact Hpre. cbn [rangeFields].
  now rewrite setField_errorOf.
Qed.

(** X3.  The short form of a key and its long form do the same. *)
Theorem aliases_are_interchangeable
  (m1 m2 short long v : string) (pre post : list string) :
  In (short, long) aliases ->
  CSV.Read m1 = (pre ++ (short ++ "=" ++ v)%string :: post, None) ->
  CSV.Read m2 = (pre ++ (long ++ "=" ++ v)%string :: post, None) ->
  parseMountFlag m1 = parseMountFlag m2.
Proof.
  intros Hin H1 H2.
  rewrite (parseMountFlag_fields _ H1), (parseMountFlag_fields _ H2).
  apply rangeFields_congr. intros mount. now apply setField_alias.
Qed.

(** X4.  The options of the mount, joined by colons, are the value of the
    last options token; there is one option more than the value has
    colons, so an empty value gives one empty option. *)
Theorem options_round_trip (m : string) (fields : list string) (v : string) :
  CSV.Read m = (fields, None) ->
  forallb accepted fields = true ->
  lastVal optionsKeys fields = Some v ->
  join ":" (Options (fst (parseMountFlag m))) = v /\
  List.length (Options (fst (parseMountFlag m))) = S (countByte ":" v).
Proof.
  intros Hread Hacc Hlast. rewrite (parseMountFlag_fields _ Hread).
  rewrite rangeFields_overwrite by exact Hacc.
  unfold overwrite. cbn [fst Options]. rewrite Hlast.
  split; [apply (Split_join v ":")|apply Split_length].
Qed.

(** X8.  When every mount flag parses, withMounts hands on one mount for
    each flag, in the order of the flags. *)
Theorem withMounts_keeps_order (flags : list string) :
  forallb parses flags = true ->
  withMounts flags [] = (map (fun f => fst (parseMountFlag f)) flags, None).
Proof.
  induction flags as [|f flags IH]; cbn [forallb]; [reflexivity|].
  intros H. apply andb_true_iff in H as [Hf H]. unfold parses in Hf.
  cbn [withMounts map].
  destruct (parseMountFlag f) as [mt [e|]]; cbn [fst snd] in *; [discriminate|].
  rewrite withMounts_acc, (IH H). reflexivity.
Qed.

(** X9.  WithMounts stops at the first mount flag that does not parse and
    returns its error; the flags behind it are not looked at. *)
Theorem withMounts_first_error
  (pre : list string) (bad : string) (post : list string) (e : error) :
  forallb parses pre = true ->
  snd (parseMountFlag bad) = Some e ->
  withMounts (pre ++ bad :: post) []
  = (map (fun f => fst (parseMountFlag f)) pre, Some e).
Proof.
  induction pre as [|f pre IH]; cbn [forallb app withMounts map].
  - intros _ Hbad. destruct (parseMountFlag bad) as [mt [e'|]];
      cbn [snd] in Hbad; [|discriminate]. congruence.
  - intros H Hbad. apply andb_true_iff in H as [Hf H]. unfold parses in Hf.
    destruct (parseMountFlag f) as [mt [e'|]]; cbn [fst snd] in *; [discriminate|].
    rewrite withMounts_acc, (IH H Hbad). reflexivity.
Qed.

End MoreMountTheorems.

(* ===================================================================== *)
(** ** The csv reader on quoted fields and on further lines *)
(* ===================================================================== *)

Module CSVWritten.
Import Bytes BytesFacts SplitFacts CSVPlain CSV.

Lemma append_nil s : (s ++ "")%string = s.
Proof. induction s as [|a s IH]; simpl; [|rewrite IH]; reflexivity. Qed.

Lemma lastByte_snoc s c : lastByte (s ++ String c "") = Some c.
Proof.
  induction s as [|a s IH]; [reflexivity|].
  cbn [append lastByte]. rewrite IH. destruct (s ++ String c "")%string eqn:E.
  - destruct s; discriminate.
  - reflexivity.
Qed.

Lemma dropLast_snoc s c : dropLast (s ++ String c "") = s.
Proof.
  induction s as [|a s IH]; [reflexivity|].
  cbn [append dropLast]. rewrite IH. destruct (s ++ String c "")%string eqn:E.
  - destruct s; discriminate.
  - reflexivity.
Qed.

Lemma endsWith_snoc s c : endsWith c (s ++ String c "") = true.
Proof. unfold endsWith. rewrite lastByte_snoc. apply Ascii.eqb_refl. Qed.

Lemma readLine_line s :
  countByte CR s = 0 -> readLine (s ++ String LF "") = (s ++ String LF "")%string.
Proof.
  intros H. unfold readLine.
  now rewrite endsWith_snoc, dropLast_snoc, (lastByte_count _ _ H).
Qed.

Lemma lineEnd_count c tail : lineEnd tail -> c <> LF -> countByte c tail = 0.
Proof.
  intros [->| ->] Hc; [reflexivity|]. cbn [countByte].
  destruct (Ascii.eqb_spec LF c); [congruence|reflexivity].
Qed.

Lemma head_not_quote_end s tail :
  countByte quote s = 0 -> lineEnd tail ->
  match (s ++ tail)%string with
  | String c _ => Ascii.eqb c quote
  | EmptyString => false
  end = false.
Proof.
  intros Hs Ht. destruct s as [|a s].
  - destruct Ht as [->| ->]; reflexivity.
  - cbn in *. destruct (Ascii.eqb a quote); [discriminate|reflexivity].
Qed.

Lemma plainField_end s tail :
  countByte comma s = 0 -> countByte LF s = 0 -> lineEnd tail ->
  plainField (s ++ tail) = s /\ indexByte comma (s ++ tail) = None.
Proof.
  intros Hc Hn Ht.
  assert (Hi : indexByte comma (s ++ tail) = None).
  { apply indexByte_none_count. rewrite countByte_app, Hc.
    now rewrite (lineEnd_count Ht) by discriminate. }
  split; [|exact Hi]. unfold plainField. rewrite Hi.
  destruct Ht as [->| ->].
  - rewrite append_nil, lengthNL_plain by exact Hn.
    now rewrite Nat.sub_0_r, take_all.
  - unfold lengthNL. rewrite endsWith_snoc, length_app. cbn [String.length].
    replace (String.length s + 1 - 1) with (String.length s) by lia.
    apply take_app.
Qed.

Lemma writable_count f c :
  writable f -> In c [LF; CR] -> countByte c (written f) = 0.
Proof.
  destruct f as [[|] s]; unfold writable, written, inQuotes; cbn [fst snd];
    intros H Hc.
  - assert (Hs : countByte c s = 0)
      by (eapply noneOf_count; [exact H|simpl in *; tauto]).
    cbn [countByte]. rewrite countByte_app. cbn [countByte]. rewrite Hs.
    destruct Hc as [<-|[<-|[]]]; reflexivity.
  - apply plain_count; [exact H|simpl in *; tauto].
Qed.

(** A line of fields, quoted or not, is read back field by field, with the
    quotes taken off. *)
Lemma parseField_written l : forall fuel tail rest acc,
  l <> [] -> Forall writable l -> List.length l <= fuel -> lineEnd tail ->
  parseField fuel (join "," (map written l) ++ tail) rest acc
  = Some (acc ++ map snd l, None).
Proof.
  induction l as [|f l IH]; intros fuel tail rest acc Hne Hall Hfuel Ht;
    [congruence|].
  inversion Hall as [|? ? Hf Hl]; subst.
  destruct fuel as [|fuel]; [simpl in Hfuel; lia|].
  assert (Hnext : forall acc', l <> [] ->
            parseField fuel (join "," (map written l) ++ tail) rest acc'
            = Some (acc' ++ map snd l, None)).
  { intros acc' Hl'. apply IH; [exact Hl'|exact Hl|simpl in *; lia|exact Ht]. }
  destruct f as [[|] s]; unfold writable in Hf; cbn [fst snd] in Hf.
  - (* a quoted field *)
    assert (Hq : countByte quote s = 0)
      by (eapply noneOf_count; [exact Hf|simpl; auto]).
    assert (Hline : exists R,
              (join "," (map written ((true, s) :: l)) ++ tail)%string
              = String quote (s ++ String quote R) /\
              (R = tail /\ l = [] \/
               R = String comma (join "," (map written l) ++ tail) /\ l <> [])).
    { destruct l as [|g l].
      - exists tail. split; [|auto]. cbn [map join written inQuotes fst snd append].
        now rewrite append_assoc.
      - exists (String comma (join "," (map written (g :: l)) ++ tail)).
        split; [|right; split; [reflexivity|discriminate]].
        cbn [map]. rewrite join_cons. cbn [written inQuotes fst snd append].
        now rewrite !append_assoc. }
    destruct Hline as (R & -> & HR).
    cbn [parseField]. rewrite Ascii.eqb_refl.
    change (drop 1 (String quote (s ++ String quote R)))
      with (s ++ String quote R)%string.
    cbn [quotedField]. rewrite indexByte_app by exact Hq.
    rewrite take_app, drop_past. cbn [append].
    destruct HR as [[-> ->]|[-> Hl']].
    + destruct Ht as [->| ->]; reflexivity.
    + cbn [Ascii.eqb]. change (Ascii.eqb comma quote) with false.
      rewrite Ascii.eqb_refl. cbv iota.
      rewrite Hnext by exact Hl'. cbn [map snd]. now rewrite <- app_assoc.
  - (* a field as it stands *)
    assert (Hq : countByte quote s = 0) by (apply plain_count; simpl; auto).
    assert (Hc : countByte comma s = 0) by (apply plain_count; simpl; auto).
    assert (Hn : countByte LF s = 0) by (apply plain_count; simpl; auto).
    destruct l as [|g l].
    + cbn [map join written fst snd parseField].
      rewrite head_not_quote_end by assumption.
      destruct (plainField_end s Hc Hn Ht) as [-> ->].
      rewrite (proj2 (indexByte_none_count quote s) Hq). reflexivity.
    + cbn [map]. rewrite join_cons. cbn [written fst snd].
      rewrite append_assoc. cbn [append parseField].
      rewrite head_not_quote by exact Hq.
      unfold plainField. rewrite indexByte_app by exact Hc.
      rewrite take_app, (proj2 (indexByte_none_count quote s) Hq), drop_past.
      change (written g :: map written l) with (map written (g :: l)).
      rewrite Hnext by discriminate. cbn [map snd]. now rewrite <- app_assoc.
Qed.

Lemma rawLines_first s rest :
  countByte LF s = 0 ->
  rawLines (s ++ String LF rest) = (s ++ String LF "")%string :: rawLines rest.
Proof.
  induction s as [|a s IH]; intros Hn.
  - cbn [append rawLines]. now rewrite Ascii.eqb_refl.
  - cbn [append rawLines countByte] in *.
    destruct (Ascii.eqb a LF); [discriminate|].
    rewrite IH by exact Hn. destruct (s ++ String LF rest)%string eqn:E.
    + destruct s; discriminate.
    + reflexivity.
Qed.

Lemma length_written l :
  List.length l <= S (String.length (join "," (map written l))).
Proof.
  rewrite <- (length_map written). apply length_join.
Qed.

Section Line.
Variable l : list (bool * string).
Hypothesis Hall : Forall writable l.
Hypothesis Hne : join "," (map written l) <> "".

Let line := join "," (map written l).

Lemma line_count c : In c [LF; CR] -> countByte c line = 0.
Proof.
  intros Hc. apply countByte_join.
  - apply Forall_forall. intros f Hf. apply in_map_iff in Hf as (g & <- & Hg).
    apply writable_count; [|exact Hc]. eapply Forall_forall; eassumption.
  - destruct Hc as [<-|[<-|[]]]; discriminate.
Qed.

Lemma list_not_nil : l <> [].
Proof. intros E. apply Hne. subst l. reflexivity. Qed.

(** [Read] on such a line yields its fields. *)
Lemma Read_written : Read line = (map snd l, None).
Proof.
  assert (HLF : countByte LF line = 0) by (apply line_count; simpl; auto).
  assert (HCR : countByte CR line = 0) by (apply line_count; simpl; auto).
  unfold Read. rewrite rawLines_one by assumption.
  cbn [map]. unfold readLine.
  rewrite (lastByte_count _ _ HLF), (lastByte_count _ _ HCR).
  cbn [readRecord]. rewrite lengthNL_plain by exact HLF.
  destruct (Nat.eqb_spec (String.length line) 0) as [E|_].
  - destruct line eqn:E'; [exfalso; apply Hne; exact E'|discriminate E].
  - assert (Hfuel : List.length l <= S (size "" [line])).
    { pose proof (length_written l) as H. fold line in H.
      unfold size. simpl. lia. }
    pose proof (@parseField_written l _ "" [] [] list_not_nil Hall Hfuel
                  (or_introl eq_refl)) as H.
    rewrite append_nil in H. unfold line in *. rewrite H. reflexivity.
Qed.

(** What follows the first line end is not read. *)
Lemma Read_first_line rest :
  Read (line ++ String LF rest) = (map snd l, None).
Proof.
  assert (HLF : countByte LF line = 0) by (apply line_count; simpl; auto).
  assert (HCR : countByte CR line = 0) by (apply line_count; simpl; auto).
  unfold Read. rewrite rawLines_first by assumption.
  cbn [map]. rewrite !readLine_line by exact HCR.
  cbn [readRecord]. unfold lengthNL at 1. rewrite endsWith_snoc.
  rewrite length_app. cbn [String.length].
  destruct (Nat.eqb_spec (String.length line + 1) 1) as [E|_].
  - destruct line eqn:E'; [exfalso; apply Hne; exact E'|simpl in E; lia].
  - unfold line. rewrite parseField_written;
      [reflexivity|apply list_not_nil|exact Hall| |right; reflexivity].
    pose proof (length_written l) as H.
    unfold size. cbn [map list_sum String.length]. rewrite length_app.
    simpl. lia.
Qed.

End Line.

Lemma countByte_le c s : countByte c s <= String.length s.
Proof.
  induction s as [|a s IH]; cbn [countByte String.length]; [lia|].
  destruct (Ascii.eqb a c); lia.
Qed.

(** Empty lines are skipped, and a string of nothing else has no record. *)
Lemma readRecord_blank s : forall fuel,
  onlyLineFeeds s = true ->
  readRecord fuel (map readLine (rawLines s)) = Some ([], Some EOF).
Proof.
  unfold onlyLineFeeds.
  induction s as [|a s IH]; intros fuel H; [reflexivity|].
  apply Nat.eqb_eq in H. cbn [countByte String.length] in H.
  pose proof (countByte_le LF s) as Hle.
  cbn [rawLines]. destruct (Ascii.eqb_spec a LF) as [->|Hne].
  - cbn [map readRecord]. change (readLine (String LF "")) with (String LF "").
    change (Nat.eqb (String.length (String LF "")) (lengthNL (String LF "")))
      with true. cbv iota. apply IH. apply Nat.eqb_eq. lia.
  - exfalso. simpl in H. lia.
Qed.

End CSVWritten.

(** X5.  A token between double quotes reaches the loop of parseMountFlag
    with the quotes taken off and its commas kept: parsing a line of
    tokens, quoted or not, is running the loop over the tokens. *)
Theorem quoted_tokens_keep_commas (l : list (bool * string)) :
  Forall writable l ->
  Bytes.join "," (map written l) <> "" ->
  parseMountFlag (Bytes.join "," (map written l))
  = rangeFields emptyMount (map snd l).
Proof.
  intros Hall Hne. apply MountFacts.parseMountFlag_fields.
  now apply CSVWritten.Read_written.
Qed.

(** X6.  Only the first line of a mount string is parsed; what follows its
    line feed is dropped without an error. *)
Theorem only_first_line_is_parsed (l : list (bool * string)) (rest : string) :
  Forall writable l ->
  Bytes.join "," (map written l) <> "" ->
  parseMountFlag (Bytes.join "," (map written l) ++ String Bytes.LF rest)
  = parseMountFlag (Bytes.join "," (map written l)).
Proof.
  intros Hall Hne.
  rewrite (MountFacts.parseMountFlag_fields _ (CSVWritten.Read_first_line Hall Hne rest)).
  rewrite (MountFacts.parseMountFlag_fields _ (CSVWritten.Read_written Hall Hne)).
  reflexivity.
Qed.

(** X7.  A mount string that is empty, or holds line feeds only, fails with
    io.EOF: the csv reader finds no record in it. *)
Theorem blank_mount_string_is_EOF (m : string) :
  onlyLineFeeds m = true ->
  parseMountFlag m = (emptyMount, Some EOF).
Proof.
  intros H. unfold parseMountFlag, CSV.Read.
  now rewrite (CSVWritten.readRecord_blank _ _ H).
Qed.

(* ===================================================================== *)
(** ** More about Action *)
(* ===================================================================== *)

Ltac open_context c :=
  destruct c as [args isTty isDetach isConfig isRm isNullIO uri dir chk
                 hasPidFile path];
  cbn [Args tty detach config rm nullIO logURI fifoDir checkpoint pidFileSet
       pidFile].

(** X10.  The checks on the arguments come before every call. *)
Theorem invalid_arguments_make_no_call (w : World) (c : Context) :
  (config c = true -> (1 <? List.length (Args c))%nat = true ->
   Run w c = (Returned (Some errOnlyContainerID), [])) /\
  (config c = false -> Get (Args c) 0 = "" ->
   Run w c = (Returned (Some errImageRef), [])) /\
  ((if config c then Get (Args c) 0 else Get (Args c) 1) = "" ->
   (config c = true -> (1 <? List.length (Args c))%nat = false) ->
   (config c = false -> Get (Args c) 0 <> "") ->
   Run w c = (Returned (Some errContainerID), [])) /\
  (snd (Run w c) = [] ->
   exists e, fst (Run w c) = Returned (Some e) /\
             In e [errOnlyContainerID; errImageRef; errContainerID]).
Proof.
  open_context c.
  repeat split.
  - intros -> H. unfold_run; cbn [Args]. rewrite H. reflexivity.
  - intros -> H. unfold_run; cbn [Args]. rewrite H. reflexivity.
  - intros Hid H1 H2. destruct isConfig.
    + unfold_run; cbn [Args]. rewrite (H1 eq_refl), Hid. reflexivity.
    + unfold_run; cbn [Args]. destruct (String.eqb_spec (Get args 0) "") as [E|E];
        [destruct (H2 eq_refl E)|]. rewrite Hid. reflexivity.
  - run_cases; cbn; intros H; try discriminate H;
      eexists; (split; [reflexivity|]); cbn; tauto.
Qed.

(** X11.  The cancel function of the client is called once, as the last call
    of all, by every run that has got a client and returns. *)
Theorem cancel_is_last (w : World) (c : Context) (e : option error) :
  fst (Run w c) = Returned e ->
  In (NewClient None) (snd (Run w c)) ->
  count isCancel (snd (Run w c)) = 1 /\
  last (snd (Run w c)) (NewClient None) = Cancel.
Proof.
  open_context c. destruct isDetach; run_cases.
  all: read_log.
  all: split; reflexivity.
Qed.


(** X13.  Once the container exists, a run that returns deletes it exactly
    when rm is set and the run is not detached, and then once. *)
Theorem container_deleted_iff_rm (w : World) (c : Context) (e : option error) :
  fst (Run w c) = Returned e ->
  In (NewContainer None) (snd (Run w c)) ->
  count isContainerDelete (snd (Run w c))
  = (if rm c && negb (detach c) then 1 else 0).
Proof.
  open_context c. destruct isDetach; run_cases.
  all: read_log.
  all: reflexivity.
Qed.



(** X16.  A start that fails ends the run with that error; no exit status is
    waited for, and the task is deleted once when the run is attached and
    not at all when it is detached. *)
Theorem start_failure (w : World) (c : Context) (e : error) :
  In (TaskStart (Some e)) (snd (Run w c)) ->
  fst (Run w c) = Returned (Some e) /\
  count isReceiveStatus (snd (Run w c)) = 0 /\
  count isForwardAllSignals (snd (Run w c)) = 0 /\
  count isTaskDelete (snd (Run w c)) = (if detach c then 0 else 1).
Proof.
  open_context c. destruct isDetach; run_cases.
  all: read_log.
  all: repeat split; reflexivity.
Qed.

(** X17.  An exit status that holds an error ends the run with that error,
    and the task is deleted once only (by the deferred call). *)
Theorem status_error (w : World) (c : Context) (s : ExitStatus) (e : error) :
  In (ReceiveStatus s) (snd (Run w c)) ->
  err s = Some e ->
  fst (Run w c) = Returned (Some e) /\
  count isTaskDelete (snd (Run w c)) = 1.
Proof.
  open_context c. destruct isDetach; run_cases.
  all: read_log.
  all: split; [congruence|reflexivity].
Qed.

(** X18.  An error of the resize handler is logged and nothing more: the run
    goes on to wait for the exit status. *)
Theorem resize_error_is_logged (w : World) (c : Context) (e : error) :
  In (HandleConsoleResize (Some e)) (snd (Run w c)) ->
  follows (HandleConsoleResize (Some e)) (LogError e) (snd (Run w c)) /\
  (fst (Run w c) = Hangs \/ count isReceiveStatus (snd (Run w c)) = 1).
Proof.
  open_context c. destruct isDetach; run_cases.
  all: read_log.
  all: split; [find_event|cbn; tauto].
Qed.

(** X19.  Signals are forwarded only by an attached run without tty, after
    the start has succeeded and never next to the resize handler; a run
    that returns stops the forwarding once. *)
Theorem signals_forwarded_without_tty (w : World) (c : Context) :
  In ForwardAllSignals (snd (Run w c)) ->
  tty c = false /\ detach c = false /\
  In (TaskStart None) (before isForwardAllSignals (snd (Run w c))) /\
  count isForwardAllSignals (snd (Run w c)) = 1 /\
  count isHandleConsoleResize (snd (Run w c)) = 0 /\
  (forall e, fst (Run w c) = Returned e ->
             count isStopCatch (after isForwardAllSignals (snd (Run w c))) = 1).
Proof.
  open_context c. destruct isDetach; run_cases.
  all: read_log.
  all: repeat split; try reflexivity; cbn; try tauto; intros; congruence.
Qed.


(** X21.  The deferred calls run in the reverse order of their registration:
    no task deletion follows the reset of the console, and neither follows
    the deletion of the container. *)
Theorem cleanup_order (w : World) (c : Context) :
  count isTaskDelete (after isConsoleReset (snd (Run w c))) = 0 /\
  count isTaskDelete (after isContainerDelete (snd (Run w c))) = 0 /\
  count isConsoleReset (after isContainerDelete (snd (Run w c))) = 0 /\
  count isStopCatch (after isConsoleReset (snd (Run w c))) = 0.
Proof.
  open_context c. destruct isDetach; run_cases.
  all: repeat split; reflexivity.
Qed.

(* ===================================================================== *)
(** ** The further theorems at work *)
(* ===================================================================== *)

Lemma first_rejected_token_decides_witness :
  CSV.Read "type=bind,foo=bar,src" = (["type=bind"] ++ "foo=bar" :: ["src"], None) /\
  forallb accepted ["type=bind"] = true /\
  accepted "foo=bar" = false /\
  parseMountFlag "type=bind,foo=bar,src"
  = (mkMount "" "bind" "" [], Some (UnsupportedOption "foo")).
Proof.
  do 3 (split; [vm_compute; reflexivity|]).
  exact (@first_rejected_token_decides "type=bind,foo=bar,src" ["type=bind"]
           "foo=bar" ["src"] eq_refl eq_refl eq_refl).
Defined.

Lemma aliases_are_interchangeable_witness :
  In ("src", "source") aliases /\
  CSV.Read "type=bind,src=/a" = (["type=bind"] ++ ("src" ++ "=" ++ "/a")%string :: [], None) /\
  CSV.Read "type=bind,source=/a"
  = (["type=bind"] ++ ("source" ++ "=" ++ "/a")%string :: [], None) /\
  parseMountFlag "type=bind,src=/a" = parseMountFlag "type=bind,source=/a".
Proof.
  assert (Hin : In ("src", "source") aliases) by (left; reflexivity).
  split; [exact Hin|]. do 2 (split; [vm_compute; reflexivity|]).
  exact (@aliases_are_interchangeable "type=bind,src=/a" "type=bind,source=/a"
           "src" "source" "/a" ["type=bind"] [] Hin eq_refl eq_refl).
Defined.

Lemma options_round_trip_witness :
  CSV.Read "type=bind,options=" = (["type=bind"; "options="], None) /\
  forallb accepted ["type=bind"; "options="] = true /\
  lastVal optionsKeys ["type=bind"; "options="] = Some "" /\
  Bytes.join ":" (Options (fst (parseMountFlag "type=bind,options="))) = "" /\
  List.length (Options (fst (parseMountFlag "type=bind,options="))) = 1.
Proof.
  do 3 (split; [vm_compute; reflexivity|]).
  exact (@options_round_trip "type=bind,options=" ["type=bind"; "options="] ""
           eq_refl eq_refl eq_refl).
Defined.

Lemma quoted_tokens_keep_commas_witness :
  let l := [(true, "source=/a,b"); (false, "type=bind")] in
  Forall writable l /\
  Bytes.join "," (map written l) <> "" /\
  parseMountFlag (Bytes.join "," (map written l))
  = (mkMount "" "bind" "/a,b" [], None).
Proof.
  cbv zeta.
  assert (Hall : Forall writable [(true, "source=/a,b"); (false, "type=bind")])
    by (repeat constructor).
  assert (Hne : Bytes.join "," (map written [(true, "source=/a,b"); (false, "type=bind")])
                <> "") by discriminate.
  split; [exact Hall|]. split; [exact Hne|].
  exact (quoted_tokens_keep_commas Hall Hne).
Defined.

Lemma only_first_line_is_parsed_witness :
  let l := [(false, "type=bind")] in
  Forall writable l /\
  Bytes.join "," (map written l) <> "" /\
  parseMountFlag (Bytes.join "," (map written l) ++ String Bytes.LF "foo=bar")
  = parseMountFlag (Bytes.join "," (map written l)).
Proof.
  cbv zeta.
  assert (Hall : Forall writable [(false, "type=bind")]) by (repeat constructor).
  assert (Hne : Bytes.join "," (map written [(false, "type=bind")]) <> "")
    by discriminate.
  split; [exact Hall|]. split; [exact Hne|].
  exact (only_first_line_is_parsed "foo=bar" Hall Hne).
Defined.

Lemma blank_mount_string_is_EOF_witness :
  onlyLineFeeds (String Bytes.LF (String Bytes.LF "")) = true /\
  parseMountFlag (String Bytes.LF (String Bytes.LF "")) = (emptyMount, Some EOF).
Proof.
  split; [reflexivity|].
  exact (@blank_mount_string_is_EOF (String Bytes.LF (String Bytes.LF "")) eq_refl).
Defined.

Lemma withMounts_keeps_order_witness :
  forallb parses ["type=a"; "type=b"] = true /\
  withMounts ["type=a"; "type=b"] []
  = ([mkMount "" "a" "" []; mkMount "" "b" "" []], None).
Proof.
  split; [vm_compute; reflexivity|].
  exact (@withMounts_keeps_order ["type=a"; "type=b"] eq_refl).
Defined.

Lemma withMounts_first_error_witness :
  forallb parses ["type=a"] = true /\
  snd (parseMountFlag "foo=bar") = Some (UnsupportedOption "foo") /\
  withMounts (["type=a"] ++ "foo=bar" :: ["typeT"]) []
  = ([mkMount "" "a" "" []], Some (UnsupportedOption "foo")).
Proof.
  do 2 (split; [vm_compute; reflexivity|]).
  exact (@withMounts_first_error ["type=a"] "foo=bar" ["typeT"]
           (UnsupportedOption "foo") eq_refl eq_refl).
Defined.

Lemma invalid_arguments_make_no_call_witness :
  config runConfigTwoArgs = true /\
  (1 <? List.length (Args runConfigTwoArgs))%nat = true /\
  Run (worldOf allSucceed (mkStatus 0 None)) runConfigTwoArgs
  = (Returned (Some errOnlyContainerID), []).
Proof.
  split; [reflexivity|]. split; [reflexivity|].
  exact (proj1 (invalid_arguments_make_no_call
                  (worldOf allSucceed (mkStatus 0 None)) runConfigTwoArgs)
               eq_refl eq_refl).
Defined.

Lemma cancel_is_last_witness :
  let r := Run (worldOf allSucceed (mkStatus 0 None)) runRm in
  fst r = Returned None /\
  In (NewClient None) (snd r) /\
  count isCancel (snd r) = 1 /\
  last (snd r) (NewClient None) = Cancel.
Proof.
  cbv zeta.
  assert (Hin : In (NewClient None)
    (snd (Run (worldOf allSucceed (mkStatus 0 None)) runRm))) by find_event.
  split; [reflexivity|]. split; [exact Hin|].
  exact (@cancel_is_last (worldOf allSucceed (mkStatus 0 None)) runRm None
           eq_refl Hin).
Defined.


Lemma container_deleted_iff_rm_witness :
  let r := Run (worldOf allSucceed (mkStatus 0 None)) runRm in
  fst r = Returned None /\
  In (NewContainer None) (snd r) /\
  count isContainerDelete (snd r) = 1.
Proof.
  cbv zeta.
  assert (Hin : In (NewContainer None)
    (snd (Run (worldOf allSucceed (mkStatus 0 None)) runRm))) by find_event.
  split; [reflexivity|]. split; [exact Hin|].
  exact (@container_deleted_iff_rm (worldOf allSucceed (mkStatus 0 None)) runRm
           None eq_refl Hin).
Defined.



Lemma start_failure_witness :
  let e := ErrorString "exec format error" in
  let r := Run (worldOf (failAfter isTaskWait e) (mkStatus 0 None)) runRm in
  In (TaskStart (Some e)) (snd r) /\
  fst r = Returned (Some e) /\
  count isReceiveStatus (snd r) = 0 /\
  count isTaskDelete (snd r) = 1.
Proof.
  cbv zeta.
  assert (Hin : In (TaskStart (Some (ErrorString "exec format error")))
    (snd (Run (worldOf (failAfter isTaskWait (ErrorString "exec format error"))
                       (mkStatus 0 None)) runRm))) by find_event.
  destruct (start_failure _ _ _ Hin) as (Hret & Hrecv & _ & Hdel).
  split; [exact Hin|]. split; [exact Hret|]. split; [exact Hrecv|exact Hdel].
Defined.

Lemma status_error_witness :
  let e := ErrorString "transport is closing" in
  let s := mkStatus 255 (Some e) in
  let r := Run (worldOf allSucceed s) runRm in
  In (ReceiveStatus s) (snd r) /\
  err s = Some e /\
  fst r = Returned (Some e) /\
  count isTaskDelete (snd r) = 1.
Proof.
  cbv zeta.
  assert (Hin : In (ReceiveStatus (mkStatus 255 (Some (ErrorString "transport is closing"))))
    (snd (Run (worldOf allSucceed
                 (mkStatus 255 (Some (ErrorString "transport is closing")))) runRm)))
    by find_event.
  split; [exact Hin|]. split; [reflexivity|].
  exact (@status_error _ runRm _ _ Hin eq_refl).
Defined.

Lemma resize_error_is_logged_witness :
  let e := ErrorString "inappropriate ioctl for device" in
  let r := Run (worldOf (failAfter isTaskStart e) (mkStatus 0 None)) runRmTty in
  In (HandleConsoleResize (Some e)) (snd r) /\
  follows (HandleConsoleResize (Some e)) (LogError e) (snd r) /\
  count isReceiveStatus (snd r) = 1.
Proof.
  cbv zeta.
  assert (Hin : In (HandleConsoleResize (Some (ErrorString "inappropriate ioctl for device")))
    (snd (Run (worldOf (failAfter isTaskStart
                          (ErrorString "inappropriate ioctl for device"))
                       (mkStatus 0 None)) runRmTty))) by find_event.
  destruct (resize_error_is_logged _ _ _ Hin) as (Hlog & Hgo).
  split; [exact Hin|]. split; [exact Hlog|].
  destruct Hgo as [Hhang|Hrecv]; [discriminate Hhang|exact Hrecv].
Defined.

Lemma signals_forwarded_without_tty_witness :
  let r := Run (worldOf allSucceed (mkStatus 0 None)) runRm in
  In ForwardAllSignals (snd r) /\
  tty runRm = false /\
  count isHandleConsoleResize (snd r) = 0 /\
  count isStopCatch (after isForwardAllSignals (snd r)) = 1.
Proof.
  cbv zeta.
  assert (Hin : In ForwardAllSignals
    (snd (Run (worldOf allSucceed (mkStatus 0 None)) runRm))) by find_event.
  destruct (signals_forwarded_without_tty _ _ Hin)
    as (Htty & _ & _ & _ & Hresize & Hstop).
  split; [exact Hin|]. split; [exact Htty|]. split; [exact Hresize|].
  exact (Hstop None eq_refl).
Defined.

